(** * Symphony Canvas client: session store and whiteboard

    A shallow embedding of
    - [frontend/src/context/game-state.tsx]: the [GameState] record, the
      [SocketProvider] state ([gameState], [socket]), [updateGameState],
      [joinGame] with the socket handlers it registers, and [useGameState];
    - the [Whiteboard] component: [getCoordinates], [startDrawing], [draw],
      [stopDrawing], [clearCanvas] and [handleSubmit].

    React state is threaded explicitly: a handler is a function on the
    component's world, and the [setState] calls of one handler are applied in
    the order they are issued (which is also the order in which React drains
    its update queue).  [console.log] output is only recorded for the
    whiteboard, where it is the one effect of [handleSubmit]. *)

From Stdlib Require Import ZArith Lia.
From stdpp Require Import base option list strings.

Local Open Scope string_scope.
Local Open Scope list_scope.

(** ** Data model *)

Module Player.
Record t := mk {
  id : string;
  nickname : string;
  hasSubmitted : option bool   (* optional property *)
}.
End Player.

Module Verse.
Record t := mk { lyrics : string; image : string; author : string }.
End Verse.

Module Song.
Record t := mk {
  title : string;
  cover : string;
  verses : list Verse.t;
  genre : string;
  shortGenre : string;
  url : string
}.
End Song.

Module Drawing.
(** The payload of [drawingSubmitted] and [drawingUpdate]. *)
Record payload := mkPayload {
  p_playerId : string;
  p_nickname : string;
  p_imageData : string
}.

(** An element of [GameState.drawings]. *)
Record t := mk {
  playerId : string;
  nickname : string;
  imageData : string;
  submitted : bool
}.

(** [{ ...drawing, submitted: b }] *)
Definition spread (drawing : payload) (b : bool) : t :=
  mk (p_playerId drawing) (p_nickname drawing) (p_imageData drawing) b.
End Drawing.

Module GameState.
Record t := mk {
  players : list Player.t;
  isAdmin : bool;
  playerId : option string;
  nickname : string;
  hasSubmittedDrawing : bool;
  waitingForOthersToSubmit : bool;
  isSubmittingDrawing : bool;
  submitError : option string;
  song : option Song.t;
  allPlayersSubmitted : bool;
  hasJoined : bool;
  joinError : option string;
  drawings : list Drawing.t
}.

(** One property of a [Partial<GameState>] object literal. *)
Inductive property :=
| Players (v : list Player.t)
| IsAdmin (v : bool)
| PlayerId (v : option string)
| Nickname (v : string)
| HasSubmittedDrawing (v : bool)
| WaitingForOthersToSubmit (v : bool)
| IsSubmittingDrawing (v : bool)
| SubmitError (v : option string)
| SongP (v : option Song.t)
| AllPlayersSubmitted (v : bool)
| HasJoined (v : bool)
| JoinError (v : option string)
| Drawings (v : list Drawing.t).

(** [{ ...s, key: v }] for a single key. *)
Definition assign (s : t) (p : property) : t :=
  match p with
  | Players v =>
      mk v (isAdmin s) (playerId s) (nickname s) (hasSubmittedDrawing s)
        (waitingForOthersToSubmit s) (isSubmittingDrawing s) (submitError s)
        (song s) (allPlayersSubmitted s) (hasJoined s) (joinError s) (drawings s)
  | IsAdmin v =>
      mk (players s) v (playerId s) (nickname s) (hasSubmittedDrawing s)
        (waitingForOthersToSubmit s) (isSubmittingDrawing s) (submitError s)
        (song s) (allPlayersSubmitted s) (hasJoined s) (joinError s) (drawings s)
  | PlayerId v =>
      mk (players s) (isAdmin s) v (nickname s) (hasSubmittedDrawing s)
        (waitingForOthersToSubmit s) (isSubmittingDrawing s) (submitError s)
        (song s) (allPlayersSubmitted s) (hasJoined s) (joinError s) (drawings s)
  | Nickname v =>
      mk (players s) (isAdmin s) (playerId s) v (hasSubmittedDrawing s)
        (waitingForOthersToSubmit s) (isSubmittingDrawing s) (submitError s)
        (song s) (allPlayersSubmitted s) (hasJoined s) (joinError s) (drawings s)
  | HasSubmittedDrawing v =>
      mk (players s) (isAdmin s) (playerId s) (nickname s) v
        (waitingForOthersToSubmit s) (isSubmittingDrawing s) (submitError s)
        (song s) (allPlayersSubmitted s) (hasJoined s) (joinError s) (drawings s)
  | WaitingForOthersToSubmit v =>
      mk (players s) (isAdmin s) (playerId s) (nickname s) (hasSubmittedDrawing s)
        v (isSubmittingDrawing s) (submitError s)
        (song s) (allPlayersSubmitted s) (hasJoined s) (joinError s) (drawings s)
  | IsSubmittingDrawing v =>
      mk (players s) (isAdmin s) (playerId s) (nickname s) (hasSubmittedDrawing s)
        (waitingForOthersToSubmit s) v (submitError s)
        (song s) (allPlayersSubmitted s) (hasJoined s) (joinError s) (drawings s)
  | SubmitError v =>
      mk (players s) (isAdmin s) (playerId s) (nickname s) (hasSubmittedDrawing s)
        (waitingForOthersToSubmit s) (isSubmittingDrawing s) v
        (song s) (allPlayersSubmitted s) (hasJoined s) (joinError s) (drawings s)
  | SongP v =>
      mk (players s) (isAdmin s) (playerId s) (nickname s) (hasSubmittedDrawing s)
        (waitingForOthersToSubmit s) (isSubmittingDrawing s) (submitError s)
        v (allPlayersSubmitted s) (hasJoined s) (joinError s) (drawings s)
  | AllPlayersSubmitted v =>
      mk (players s) (isAdmin s) (playerId s) (nickname s) (hasSubmittedDrawing s)
        (waitingForOthersToSubmit s) (isSubmittingDrawing s) (submitError s)
        (song s) v (hasJoined s) (joinError s) (drawings s)
  | HasJoined v =>
      mk (players s) (isAdmin s) (playerId s) (nickname s) (hasSubmittedDrawing s)
        (waitingForOthersToSubmit s) (isSubmittingDrawing s) (submitError s)
        (song s) (allPlayersSubmitted s) v (joinError s) (drawings s)
  | JoinError v =>
      mk (players s) (isAdmin s) (playerId s) (nickname s) (hasSubmittedDrawing s)
        (waitingForOthersToSubmit s) (isSubmittingDrawing s) (submitError s)
        (song s) (allPlayersSubmitted s) (hasJoined s) v (drawings s)
  | Drawings v =>
      mk (players s) (isAdmin s) (playerId s) (nickname s) (hasSubmittedDrawing s)
        (waitingForOthersToSubmit s) (isSubmittingDrawing s) (submitError s)
        (song s) (allPlayersSubmitted s) (hasJoined s) (joinError s) v
  end.

(** [Partial<GameState>]: the properties of the literal, in source order. *)
Definition partial := list property.

(** [{ ...prev, ...updates }] *)
Definition spread (prev : t) (updates : partial) : t :=
  foldl assign prev updates.
End GameState.

Definition initialGameState : GameState.t :=
  {| GameState.players := [];
     GameState.playerId := None;
     GameState.nickname := "";
     GameState.isAdmin := false;
     GameState.isSubmittingDrawing := false;
     GameState.hasSubmittedDrawing := false;
     GameState.waitingForOthersToSubmit := false;
     GameState.allPlayersSubmitted := false;
     GameState.submitError := None;
     GameState.song := None;
     GameState.hasJoined := false;
     GameState.joinError := None;
     GameState.drawings := [] |}.

(** ** JavaScript helpers *)

(** Truthiness of a string: every string but the empty one.  ([null] is
    falsy; where the source tests a [string | null] the model matches on
    the option first.) *)
Definition truthy (s : string) : bool := negb (String.eqb s "").

(** [Array.prototype.findIndex]: the first index whose element satisfies
    [p], or [-1]. *)
Fixpoint findIndex_from {A} (p : A -> bool) (l : list A) (i : Z) : Z :=
  match l with
  | [] => (-1)%Z
  | a :: l' => if p a then i else findIndex_from p l' (i + 1)%Z
  end.

Definition findIndex {A} (p : A -> bool) (l : list A) : Z :=
  findIndex_from p l 0%Z.

(** ** The socket provider *)

(** Messages sent with [newSocket.emit]. *)
Inductive outbound :=
| joinLobby (playerId : string) (nickname : string).

(** Events for which [joinGame] registers a listener.  The client library
    is the one that exports [io] and [Socket] by name (socket.io-client 3
    and later): there [reconnect] is an event of the Manager, never fired
    on the socket itself, and a successful reconnection is reported to the
    socket as another [connect]. *)
Inductive event :=
| connect_error
| reconnect (attemptNumber : nat)
| reconnect_error
| connect
| kicked
| adminJoined
| joinRejected (reason : string)
| lobbyUpdate (updatedPlayers : list Player.t)
| displaySong (songData : Song.t)
| error (errorMessage : string)
| allDrawingsSubmitted
| drawingSubmitted (drawing : Drawing.payload)
| drawingUpdate (drawing : Drawing.payload).

(** What the listeners registered by one call of [joinGame] close over:
    the [gameState] constant of the render that created this [joinGame],
    the locals [playerId] and [nickname], and [newSocket] (as its index in
    the world's table of socket objects). *)
Record closure := mkClosure {
  c_gameState : GameState.t;
  c_playerId : string;
  c_nickname : string;
  c_newSocket : nat
}.

(** A socket object.  The transport is socket.io's: once [disconnect()]
    (alias [close()]) has been called on a socket it is detached from its
    manager, so it neither reconnects nor fires any listener again. *)
Record Socket := mkSocket {
  listeners : closure;
  closed : bool;
  outbox : list outbound     (* emitted messages, oldest first *)
}.

(** The state of [SocketProvider], the socket objects created so far, and
    the routes pushed on the router. *)
Record world := mkWorld {
  gameState : GameState.t;      (* useState<GameState>(initialGameState) *)
  socket : option nat;          (* useState<Socket | null>(null) *)
  sockets : list Socket;
  route : list string
}.

Definition initialWorld : world := mkWorld initialGameState None [] [].

(** [React.SetStateAction<GameState>] *)
Inductive SetStateAction :=
| Value (s : GameState.t)
| Updater (f : GameState.t -> GameState.t).

Definition setGameState (a : SetStateAction) (w : world) : world :=
  let next := match a with
              | Value s => s
              | Updater f => f (gameState w)
              end in
  mkWorld next (socket w) (sockets w) (route w).

Definition updateGameState (updates : GameState.partial) : world -> world :=
  setGameState (Updater (fun prev => GameState.spread prev updates)).

Definition emit (h : nat) (m : outbound) (w : world) : world :=
  mkWorld (gameState w) (socket w)
    (alter (fun s => mkSocket (listeners s) (closed s) (outbox s ++ [m])) h (sockets w))
    (route w).

Definition disconnect (h : nat) (w : world) : world :=
  mkWorld (gameState w) (socket w)
    (alter (fun s => mkSocket (listeners s) true (outbox s)) h (sockets w))
    (route w).

(** [setSocket(v)], together with the effect of the provider
    ([useEffect(() => () => { if (socket) socket.close(); }, [socket])]):
    when the [socket] state changes, the cleanup closes the socket it held.
    The cleanup belongs to the render that was committed with the old
    socket, so this is the behaviour when that render has been committed
    before [setSocket] is called, as it has for a listener that runs after
    the socket was created; a socket stored and replaced within one and
    the same render is not closed by React, and no property below relies
    on the closing done here. *)
Definition setSocket (v : option nat) (w : world) : world :=
  let w' := mkWorld (gameState w) v (sockets w) (route w) in
  match socket w with
  | Some old => if bool_decide (v = Some old) then w' else disconnect old w'
  | None => w'
  end.

Definition router_push (path : string) (w : world) : world :=
  mkWorld (gameState w) (socket w) (sockets w) (route w ++ [path]).

(** The statements of a function body, run in order. *)
Definition block (body : list (world -> world)) (w : world) : world :=
  foldl (fun w stmt => stmt w) w body.

(** The [setGameState] callback of the [drawingSubmitted] listener. *)
Definition onDrawingSubmitted (drawing : Drawing.payload) (prev : GameState.t)
  : GameState.t :=
  let existingIndex :=
    findIndex (fun d => String.eqb (Drawing.playerId d) (Drawing.p_playerId drawing))
      (GameState.drawings prev) in
  if negb (Z.eqb existingIndex (-1)) then
    let updatedDrawings :=
      <[Z.to_nat existingIndex := Drawing.spread drawing true]>
        (GameState.drawings prev) in
    GameState.assign prev (GameState.Drawings updatedDrawings)
  else
    GameState.assign prev
      (GameState.Drawings (GameState.drawings prev ++ [Drawing.spread drawing true])).

(** The [setGameState] callback of the [drawingUpdate] listener.  In the
    first branch [prev.drawings[existingIndex]] exists; the fallback of the
    lookup is never used (see [findIndex_lookup]). *)
Definition onDrawingUpdate (drawing : Drawing.payload) (prev : GameState.t)
  : GameState.t :=
  let existingIndex :=
    findIndex (fun d => String.eqb (Drawing.playerId d) (Drawing.p_playerId drawing))
      (GameState.drawings prev) in
  if negb (Z.eqb existingIndex (-1)) then
    let updatedDrawings :=
      <[Z.to_nat existingIndex :=
          Drawing.spread drawing
            (from_option Drawing.submitted false
               (GameState.drawings prev !! Z.to_nat existingIndex))]>
        (GameState.drawings prev) in
    GameState.assign prev (GameState.Drawings updatedDrawings)
  else
    GameState.assign prev
      (GameState.Drawings (GameState.drawings prev ++ [Drawing.spread drawing false])).

(** The listener that [joinGame] registers for each event, with [cl] the
    variables it closes over. *)
Definition listener (cl : closure) (ev : event) : world -> world :=
  let newSocket := c_newSocket cl in
  match ev with
  | connect_error =>
      updateGameState
        [GameState.JoinError (Some "Failed to connect to server. Retrying...");
         GameState.HasJoined false]
  | reconnect _ =>
      let gameState := c_gameState cl in
      match GameState.playerId gameState with
      | Some playerId =>
          if truthy (GameState.nickname gameState) && truthy playerId then
            emit newSocket (joinLobby playerId (GameState.nickname gameState))
          else block []
      | None => block []
      end
  | reconnect_error =>
      updateGameState
        [GameState.JoinError (Some "Failed to reconnect to server");
         GameState.HasJoined false]
  | connect =>
      block
        [emit newSocket (joinLobby (c_playerId cl) (c_nickname cl));
         updateGameState [GameState.HasJoined true]]
  | kicked =>
      block
        [setGameState (Value initialGameState);
         disconnect newSocket;
         setSocket None;
         updateGameState [GameState.JoinError (Some "You were kicked")];
         router_push "/"]
  | adminJoined =>
      updateGameState [GameState.IsAdmin true]
  | joinRejected reason =>
      block
        [updateGameState
           [GameState.JoinError (Some reason); GameState.HasJoined false];
         disconnect newSocket;
         setSocket None]
  | lobbyUpdate updatedPlayers =>
      updateGameState [GameState.Players updatedPlayers]
  | displaySong songData =>
      updateGameState [GameState.SongP (Some songData)]
  | error errorMessage =>
      updateGameState
        [GameState.SubmitError (Some errorMessage);
         GameState.IsSubmittingDrawing false]
  | allDrawingsSubmitted =>
      updateGameState
        [GameState.WaitingForOthersToSubmit false;
         GameState.AllPlayersSubmitted true]
  | drawingSubmitted drawing =>
      setGameState (Updater (onDrawingSubmitted drawing))
  | drawingUpdate drawing =>
      setGameState (Updater (onDrawingUpdate drawing))
  end.

(** [io(url, options)] followed by the [newSocket.on] registrations: a new
    socket object carrying its listeners' closure. *)
Definition io (cl : closure) (w : world) : world :=
  mkWorld (gameState w) (socket w) (sockets w ++ [mkSocket cl false []]) (route w).

(** [joinGame(nickname)], called on the current render of the provider.
    [playerId] is the string produced by
    [Math.random().toString(36).substring(2, 7)]. *)
Definition joinGame (playerId nickname : string) (w : world) : world :=
  let newSocket := length (sockets w) in
  let cl := mkClosure (gameState w) playerId nickname newSocket in
  block
    [updateGameState [GameState.PlayerId (Some playerId); GameState.Nickname nickname];
     io cl;
     setSocket (Some newSocket)]
    w.

(** The transport delivers event [ev] to socket [h]: its listener runs
    unless the socket has been closed. *)
Definition deliver (h : nat) (ev : event) (w : world) : world :=
  match sockets w !! h with
  | Some s => if closed s then w else listener (listeners s) ev w
  | None => w
  end.

Definition deliver_all (h : nat) (evs : list event) (w : world) : world :=
  foldl (fun w ev => deliver h ev w) w evs.

(** ** [useGameState] *)

(** [new Error(message)].  A function that may throw returns [inl] of the
    error thrown, or [inr] of its result. *)
Inductive Error := mkError (message : string).

(** The value [SocketProvider] passes to [SocketContext.Provider]: the
    provider's state at that render (the three function members are the
    definitions above). *)
Record GameStateContextType := mkContext {
  ctx_socket : option nat;
  ctx_gameState : GameState.t
}.

(** [useContext(SocketContext)]: the value of the nearest enclosing
    provider (innermost first), or the default [null] of
    [createContext<GameStateContextType | null>(null)]. *)
Definition useContext (providers : list GameStateContextType)
  : option GameStateContextType :=
  head providers.

Definition useGameState (providers : list GameStateContextType)
  : Error + GameStateContextType :=
  match useContext providers with
  | None => inl (mkError "useGameState must be used within SocketProvider")
  | Some context => inr context
  end.

(** ** The whiteboard *)

Module Whiteboard.
Section Whiteboard.

(** JavaScript numbers, with the one operation the component applies to
    pointer coordinates. *)
Context {num : Type} (minus : num -> num -> num).

Record Point := mkPoint { x : num; y : num }.

(** [canvas.getBoundingClientRect()] *)
Record DOMRect := mkRect { left : num; top : num }.

(** The canvas element: where it lies in the viewport, whether
    [getContext("2d")] yields a context, and the segments stroked on its
    bitmap since it was last cleared. *)
Record Canvas := mkCanvas {
  rect : DOMRect;
  context2d : bool;
  strokes : list (Point * Point)
}.

(** [canvas.toDataURL(type)], the browser's image encoder. *)
Context (toDataURL : Canvas -> string -> string).

(** Messages sent with [socket.emit]: ['draw', { start, end }]. *)
Inductive message :=
| Draw (start end_ : Point).

Record Socket := mkSocket { sent : list message }.

(** The event handed to a pointer handler: a mouse event with its offset
    coordinates, a touch event with the client coordinates of
    [touches[0]], or anything else. *)
Inductive pointer :=
| MouseEv (offsetX offsetY : num)
| TouchEv (clientX clientY : num)
| OtherEv.

Record board := mkBoard {
  isDrawing : bool;                     (* useState(false) *)
  lastPoint : option Point;             (* useState<Point | null>(null) *)
  canvasRef : option Canvas;            (* canvasRef.current *)
  socket : option Socket;               (* useSocket(), tested for null *)
  console : list (list string)          (* console.log calls *)
}.

(** Everything sent on the board's socket so far.  The socket comes from
    the [useSocket] hook of [@/context/socket-context]; the component
    guards every use of it ([if (!socket) return], [socket?.emit]), so it
    may be absent. *)
Definition transmitted (b : board) : list message :=
  match socket b with
  | Some s => sent s
  | None => []
  end.

Definition getCoordinates (event : pointer) (b : board) : option Point :=
  match event with
  | MouseEv offsetX offsetY => Some (mkPoint offsetX offsetY)
  | TouchEv clientX clientY =>
      match canvasRef b with
      | Some canvas =>
          Some (mkPoint (minus clientX (left (rect canvas)))
                        (minus clientY (top (rect canvas))))
      | None => None
      end
  | OtherEv => None
  end.

Definition setIsDrawing (v : bool) (b : board) : board :=
  mkBoard v (lastPoint b) (canvasRef b) (socket b) (console b).

Definition setLastPoint (v : option Point) (b : board) : board :=
  mkBoard (isDrawing b) v (canvasRef b) (socket b) (console b).

(** [canvas?.getContext("2d")] *)
Definition getContext (b : board) : option Canvas :=
  match canvasRef b with
  | Some canvas => if context2d canvas then Some canvas else None
  | None => None
  end.

(** [beginPath(); moveTo(from); lineTo(to); stroke()] on the context of
    [canvas]. *)
Definition stroke (canvas : Canvas) (from to : Point) (b : board) : board :=
  mkBoard (isDrawing b) (lastPoint b)
    (Some (mkCanvas (rect canvas) (context2d canvas) (strokes canvas ++ [(from, to)])))
    (socket b) (console b).

(** [socket?.emit(m)] *)
Definition emit (m : message) (b : board) : board :=
  match socket b with
  | Some s =>
      mkBoard (isDrawing b) (lastPoint b) (canvasRef b)
        (Some (mkSocket (sent s ++ [m]))) (console b)
  | None => b
  end.

Definition startDrawing (e : pointer) (b : board) : board :=
  match getCoordinates e b with
  | Some point => setLastPoint (Some point) (setIsDrawing true b)
  | None => b
  end.

Definition draw (e : pointer) (b : board) : board :=
  match isDrawing b, lastPoint b with
  | true, Some anchor =>
      match getCoordinates e b with
      | None => b
      | Some point =>
          let b' :=
            match getContext b with
            | Some canvas => emit (Draw anchor point) (stroke canvas anchor point b)
            | None => b
            end in
          setLastPoint (Some point) b'
      end
  | _, _ => b
  end.

Definition stopDrawing (b : board) : board :=
  setLastPoint None (setIsDrawing false b).

(** The listener of the socket's ['draw'] event. *)
Definition onDraw (start end_ : Point) (b : board) : board :=
  match getContext b with
  | Some canvas => stroke canvas start end_ b
  | None => b
  end.

(** [context.clearRect(0, 0, canvas.width, canvas.height)] under the
    transform the context has at that time: the segments left on the
    bitmap.  The rectangle is scaled by the device pixel ratio like
    everything drawn, so it spans the whole bitmap for a ratio of at least
    1 and only a part of it below. *)
Context (clearRect : Canvas -> list (Point * Point)).

Definition clearCanvas (b : board) : board :=
  match getContext b with
  | Some canvas =>
      mkBoard (isDrawing b) (lastPoint b)
        (Some (mkCanvas (rect canvas) (context2d canvas) (clearRect canvas)))
        (socket b) (console b)
  | None => b
  end.

Definition handleSubmit (b : board) : board :=
  match canvasRef b with
  | Some canvas =>
      let imageData := toDataURL canvas "image/png" in
      mkBoard (isDrawing b) (lastPoint b) (canvasRef b) (socket b)
        (console b ++ [["Canvas data:"; imageData]])
  | None => b
  end.

End Whiteboard.
End Whiteboard.

(** ** Example values *)

Definition ava : Player.t := Player.mk "p1" "Ava" None.
Definition bo : Player.t := Player.mk "p2" "Bo" (Some true).

Definition drawingA : Drawing.payload := Drawing.mkPayload "p2" "Bo" "A".
Definition drawingB : Drawing.payload := Drawing.mkPayload "p2" "Bo" "B".
Definition drawingC : Drawing.payload := Drawing.mkPayload "p1" "Ava" "C".

(** The provider after a first [joinGame("Ava")] that drew the identifier
    ["k3x9q"], and after the transport then connected. *)
Definition joinedWorld : world := joinGame "k3x9q" "Ava" initialWorld.
Definition connectedWorld : world := deliver 0 connect joinedWorld.

(** The socket object of that world, once it has sent its join request. *)
Definition firstSocket : Socket :=
  mkSocket (mkClosure initialGameState "k3x9q" "Ava" 0) false
    [joinLobby "k3x9q" "Ava"].

(** A gallery in which p2 has already submitted. *)
Definition galleryWorld : world :=
  deliver_all 0 [drawingUpdate drawingC; drawingSubmitted drawingA] connectedWorld.

(** A whiteboard over integer coordinates: a mounted canvas at the origin
    of the viewport, with a stroke in progress anchored at (10, 10). *)
Definition blankCanvas : Whiteboard.Canvas (num := Z) :=
  Whiteboard.mkCanvas (Whiteboard.mkRect 0%Z 0%Z) true [].

Definition activeBoard : Whiteboard.board :=
  Whiteboard.mkBoard true (Some (Whiteboard.mkPoint 10%Z 10%Z))
    (Some blankCanvas) (Some (Whiteboard.mkSocket [])) [].

(** The same board while no socket has been provided yet. *)
Definition offlineBoard : Whiteboard.board :=
  Whiteboard.mkBoard true (Some (Whiteboard.mkPoint 10%Z 10%Z))
    (Some blankCanvas) None [].

(** No stroke in progress. *)
Definition idleBoard : Whiteboard.board :=
  Whiteboard.mkBoard false None (Some blankCanvas) (Some (Whiteboard.mkSocket [])) [].

(** A board whose canvas shows one segment, ready to be submitted. *)
Definition sketchedBoard : Whiteboard.board :=
  Whiteboard.stopDrawing
    (Whiteboard.draw Z.sub (Whiteboard.MouseEv 20%Z 20%Z) activeBoard).

(** A stand-in for the browser's encoder. *)
Definition dataURL (canvas : Whiteboard.Canvas (num := Z)) (type : string) : string :=
  String.append "data:" (String.append type ";base64,").

(** ** Well-formed worlds *)

(** The listeners of the socket stored at index [h] refer to that socket
    as [newSocket]. *)
Definition wf (w : world) : Prop :=
  forall h s, sockets w !! h = Some s -> c_newSocket (listeners s) = h.

(** No two records of the gallery belong to the same player. *)
Definition unique_ids (l : list Drawing.t) : Prop :=
  NoDup (Drawing.playerId <$> l).

(** The predicate both drawing listeners pass to [findIndex]. *)
Definition same_player (drawing : Drawing.payload) (d : Drawing.t) : bool :=
  String.eqb (Drawing.playerId d) (Drawing.p_playerId drawing).

Definition is_drawing_event (ev : event) : bool :=
  match ev with
  | drawingSubmitted _ | drawingUpdate _ => true
  | _ => false
  end.

(** ** Vocabulary for the further properties *)

(** The keys of [GameState]. *)
Inductive field :=
| FPlayers | FIsAdmin | FPlayerId | FNickname | FHasSubmittedDrawing
| FWaitingForOthersToSubmit | FIsSubmittingDrawing | FSubmitError | FSong
| FAllPlayersSubmitted | FHasJoined | FJoinError | FDrawings.

(** The key a property of an object literal is written under. *)
Definition field_of (p : GameState.property) : field :=
  match p with
  | GameState.Players _ => FPlayers
  | GameState.IsAdmin _ => FIsAdmin
  | GameState.PlayerId _ => FPlayerId
  | GameState.Nickname _ => FNickname
  | GameState.HasSubmittedDrawing _ => FHasSubmittedDrawing
  | GameState.WaitingForOthersToSubmit _ => FWaitingForOthersToSubmit
  | GameState.IsSubmittingDrawing _ => FIsSubmittingDrawing
  | GameState.SubmitError _ => FSubmitError
  | GameState.SongP _ => FSong
  | GameState.AllPlayersSubmitted _ => FAllPlayersSubmitted
  | GameState.HasJoined _ => FHasJoined
  | GameState.JoinError _ => FJoinError
  | GameState.Drawings _ => FDrawings
  end.

(** [s[k]], together with its key. *)
Definition read (s : GameState.t) (k : field) : GameState.property :=
  match k with
  | FPlayers => GameState.Players (GameState.players s)
  | FIsAdmin => GameState.IsAdmin (GameState.isAdmin s)
  | FPlayerId => GameState.PlayerId (GameState.playerId s)
  | FNickname => GameState.Nickname (GameState.nickname s)
  | FHasSubmittedDrawing => GameState.HasSubmittedDrawing (GameState.hasSubmittedDrawing s)
  | FWaitingForOthersToSubmit =>
      GameState.WaitingForOthersToSubmit (GameState.waitingForOthersToSubmit s)
  | FIsSubmittingDrawing => GameState.IsSubmittingDrawing (GameState.isSubmittingDrawing s)
  | FSubmitError => GameState.SubmitError (GameState.submitError s)
  | FSong => GameState.SongP (GameState.song s)
  | FAllPlayersSubmitted => GameState.AllPlayersSubmitted (GameState.allPlayersSubmitted s)
  | FHasJoined => GameState.HasJoined (GameState.hasJoined s)
  | FJoinError => GameState.JoinError (GameState.joinError s)
  | FDrawings => GameState.Drawings (GameState.drawings s)
  end.

#[local] Instance field_eq_dec : EqDecision field.
Proof. solve_decision. Defined.

(** The keys the listener of an event assigns ([kicked] replaces the whole
    state). *)
Definition writes (ev : event) : list field :=
  match ev with
  | connect_error | reconnect_error | joinRejected _ => [FJoinError; FHasJoined]
  | reconnect _ => []
  | connect => [FHasJoined]
  | kicked =>
      [FPlayers; FIsAdmin; FPlayerId; FNickname; FHasSubmittedDrawing;
       FWaitingForOthersToSubmit; FIsSubmittingDrawing; FSubmitError; FSong;
       FAllPlayersSubmitted; FHasJoined; FJoinError; FDrawings]
  | adminJoined => [FIsAdmin]
  | lobbyUpdate _ => [FPlayers]
  | displaySong _ => [FSong]
  | error _ => [FSubmitError; FIsSubmittingDrawing]
  | allDrawingsSubmitted => [FWaitingForOthersToSubmit; FAllPlayersSubmitted]
  | drawingSubmitted _ | drawingUpdate _ => [FDrawings]
  end.

Definition is_kicked (ev : event) : bool :=
  match ev with kicked => true | _ => false end.

Definition is_connect (ev : event) : bool :=
  match ev with connect => true | _ => false end.

Definition is_reconnect (ev : event) : bool :=
  match ev with reconnect _ => true | _ => false end.

(** The events whose listener calls [newSocket.disconnect()]. *)
Definition disconnects (ev : event) : bool :=
  match ev with kicked | joinRejected _ => true | _ => false end.

(** The events whose listener calls [newSocket.emit]. *)
Definition emits (ev : event) : bool :=
  match ev with connect | reconnect _ => true | _ => false end.

(** What can happen to the provider: the user joins, or the transport
    delivers an event to one of the sockets. *)
Inductive action :=
| UserJoins (playerId nickname : string)
| Transport (h : nat) (ev : event).

Definition step (w : world) (a : action) : world :=
  match a with
  | UserJoins playerId nickname => joinGame playerId nickname w
  | Transport h ev => deliver h ev w
  end.

Definition run (acts : list action) (w : world) : world := foldl step w acts.

(** Insert-or-update by player: the record found for the player of
    [drawing] is replaced by [found] of it, and [fresh] is appended when
    there is none. *)
Definition upsert (drawing : Drawing.payload) (found : Drawing.t -> Drawing.t)
    (fresh : Drawing.t) (l : list Drawing.t) : list Drawing.t :=
  match list_find (fun d => same_player drawing d = true) l with
  | Some (i, r) => <[i := found r]> l
  | None => l ++ [fresh]
  end.

Section Gestures.

Context {num : Type} (minus : num -> num -> num).

(** The pointer handlers bound on the canvas element: [onMouseDown] and
    [onTouchStart]; [onMouseMove] and [onTouchMove]; [onMouseUp],
    [onTouchEnd], [onMouseOut] and [onTouchCancel]. *)
Inductive gesture :=
| Down (e : Whiteboard.pointer (num := num))
| Move (e : Whiteboard.pointer (num := num))
| Up.

Definition handle (b : Whiteboard.board) (g : gesture) : Whiteboard.board :=
  match g with
  | Down e => Whiteboard.startDrawing minus e b
  | Move e => Whiteboard.draw minus e b
  | Up => Whiteboard.stopDrawing b
  end.

(** The segments on the board's canvas. *)
Definition drawn (b : Whiteboard.board (num := num))
  : list (Whiteboard.Point * Whiteboard.Point) :=
  match Whiteboard.canvasRef b with
  | Some canvas => Whiteboard.strokes canvas
  | None => []
  end.

Definition as_message (segment : Whiteboard.Point * Whiteboard.Point)
  : Whiteboard.message (num := num) :=
  Whiteboard.Draw (fst segment) (snd segment).

End Gestures.

(** ** [findIndex] *)

Lemma findIndex_from_list_find {A} (p : A -> bool) (l : list A) (i : Z) :
  findIndex_from p l i =
  match list_find (fun a => p a = true) l with
  | Some (k, _) => (i + Z.of_nat k)%Z
  | None => (-1)%Z
  end.
Proof.
  revert i; induction l as [|a l IH]; intros i; simpl; [done|].
  destruct (p a) eqn:Hp.
  - rewrite decide_True by done. simpl. lia.
  - rewrite decide_False by congruence.
    rewrite IH. destruct (list_find _ l) as [[k b]|]; simpl; lia.
Qed.

(** [findIndex] returns [-1] exactly when no element qualifies; otherwise
    it is the position of the first qualifying element. *)
Lemma findIndex_found {A} (p : A -> bool) (l : list A) (k : nat) (a : A) :
  list_find (fun a => p a = true) l = Some (k, a) ->
  findIndex p l = Z.of_nat k /\ (findIndex p l =? -1)%Z = false /\
  Z.to_nat (findIndex p l) = k.
Proof.
  intros H. unfold findIndex. rewrite findIndex_from_list_find, H. cbn beta iota.
  split; [lia|]. split; [|lia]. apply Z.eqb_neq. lia.
Qed.

Lemma findIndex_missing {A} (p : A -> bool) (l : list A) :
  list_find (fun a => p a = true) l = None ->
  (findIndex p l =? -1)%Z = true.
Proof.
  intros H. unfold findIndex. rewrite findIndex_from_list_find, H. done.
Qed.

Lemma findIndex_lookup {A} (p : A -> bool) (l : list A) :
  (findIndex p l =? -1)%Z = false ->
  exists a, l !! Z.to_nat (findIndex p l) = Some a /\ p a = true.
Proof.
  destruct (list_find (fun a => p a = true) l) as [[k a]|] eqn:H.
  - intros _. destruct (findIndex_found p l k a H) as (_ & _ & ->).
    apply list_find_Some in H as (? & ? & _). eauto.
  - rewrite (findIndex_missing p l H). done.
Qed.

(** ** The two drawing listeners as list operations *)

Lemma same_player_eq (drawing : Drawing.payload) (d : Drawing.t) :
  same_player drawing d = true <-> Drawing.playerId d = Drawing.p_playerId drawing.
Proof. unfold same_player. apply String.eqb_eq. Qed.

Lemma same_player_spread (drawing : Drawing.payload) (b : bool) :
  same_player drawing (Drawing.spread drawing b) = true.
Proof. apply same_player_eq. reflexivity. Qed.

Lemma onDrawingSubmitted_assign (drawing : Drawing.payload) (prev : GameState.t) :
  onDrawingSubmitted drawing prev =
  GameState.assign prev
    (GameState.Drawings
       match list_find (fun d => same_player drawing d = true) (GameState.drawings prev) with
       | Some (i, _) => <[i := Drawing.spread drawing true]> (GameState.drawings prev)
       | None => GameState.drawings prev ++ [Drawing.spread drawing true]
       end).
Proof.
  unfold onDrawingSubmitted. fold (same_player drawing).
  destruct (list_find _ (GameState.drawings prev)) as [[i r]|] eqn:Hfind.
  - destruct (findIndex_found _ _ _ _ Hfind) as (_ & -> & ->). reflexivity.
  - rewrite (findIndex_missing _ _ Hfind). reflexivity.
Qed.

Lemma onDrawingUpdate_assign (drawing : Drawing.payload) (prev : GameState.t) :
  onDrawingUpdate drawing prev =
  GameState.assign prev
    (GameState.Drawings
       match list_find (fun d => same_player drawing d = true) (GameState.drawings prev) with
       | Some (i, r) =>
           <[i := Drawing.spread drawing (Drawing.submitted r)]> (GameState.drawings prev)
       | None => GameState.drawings prev ++ [Drawing.spread drawing false]
       end).
Proof.
  unfold onDrawingUpdate. fold (same_player drawing).
  destruct (list_find _ (GameState.drawings prev)) as [[i r]|] eqn:Hfind.
  - destruct (findIndex_found _ _ _ _ Hfind) as (_ & -> & ->).
    apply list_find_Some in Hfind as (-> & _ & _). reflexivity.
  - rewrite (findIndex_missing _ _ Hfind). reflexivity.
Qed.

Lemma drawings_assign (prev : GameState.t) (l : list Drawing.t) :
  GameState.drawings (GameState.assign prev (GameState.Drawings l)) = l.
Proof. reflexivity. Qed.

(** A record of the player is found as soon as one exists. *)
Lemma list_find_same_player (drawing : Drawing.payload) (l : list Drawing.t)
      (i : nat) (r : Drawing.t) :
  l !! i = Some r ->
  Drawing.playerId r = Drawing.p_playerId drawing ->
  exists k r0, list_find (fun d => same_player drawing d = true) l = Some (k, r0)
               /\ k <= i.
Proof.
  intros Hi Hid.
  destruct (list_find (fun d => same_player drawing d = true) l) as [[k r0]|] eqn:Hfind.
  - exists k, r0. split; [done|].
    apply list_find_Some in Hfind as (_ & _ & Hfirst).
    destruct (decide (k <= i)) as [|Hlt]; [done|].
    exfalso. apply (Hfirst i r Hi); [lia|]. by apply same_player_eq.
  - exfalso. apply list_find_None in Hfind.
    rewrite Forall_lookup in Hfind. apply (Hfind i r Hi). by apply same_player_eq.
Qed.

(** With unique identifiers the record found is the only one. *)
Lemma list_find_unique (drawing : Drawing.payload) (l : list Drawing.t)
      (i : nat) (r : Drawing.t) :
  unique_ids l ->
  l !! i = Some r ->
  Drawing.playerId r = Drawing.p_playerId drawing ->
  list_find (fun d => same_player drawing d = true) l = Some (i, r).
Proof.
  intros Huniq Hi Hid.
  destruct (list_find_same_player drawing l i r Hi Hid) as (k & r0 & Hfind & _).
  rewrite Hfind.
  apply list_find_Some in Hfind as (Hk & Hp & _).
  apply same_player_eq in Hp.
  assert (k = i) as ->.
  { eapply (NoDup_lookup _ k i (Drawing.playerId r) Huniq);
      rewrite list_lookup_fmap; [rewrite Hk|rewrite Hi]; simpl; congruence. }
  congruence.
Qed.

Lemma unique_ids_insert (l : list Drawing.t) (i : nat) (old r : Drawing.t) :
  l !! i = Some old ->
  Drawing.playerId r = Drawing.playerId old ->
  unique_ids l -> unique_ids (<[i := r]> l).
Proof.
  intros Hi Hid. unfold unique_ids.
  rewrite list_fmap_insert, list_insert_id; [done|].
  rewrite list_lookup_fmap, Hi. simpl. congruence.
Qed.

Lemma unique_ids_snoc (l : list Drawing.t) (r : Drawing.t) :
  (forall d, d ∈ l -> Drawing.playerId d <> Drawing.playerId r) ->
  unique_ids l -> unique_ids (l ++ [r]).
Proof.
  intros Hfresh Huniq. unfold unique_ids in *.
  rewrite fmap_app. apply NoDup_app. split; [done|]. split.
  - intros id Hin Hin'. apply list_elem_of_fmap in Hin as (d & -> & Hd).
    simpl in Hin'. apply list_elem_of_singleton in Hin'.
    by apply (Hfresh d Hd).
  - simpl. apply NoDup_singleton.
Qed.

Lemma onDrawingSubmitted_unique (drawing : Drawing.payload) (prev : GameState.t) :
  unique_ids (GameState.drawings prev) ->
  unique_ids (GameState.drawings (onDrawingSubmitted drawing prev)).
Proof.
  intros Huniq. rewrite onDrawingSubmitted_assign, drawings_assign.
  destruct (list_find _ _) as [[i r]|] eqn:Hfind.
  - apply list_find_Some in Hfind as (Hi & Hp & _). apply same_player_eq in Hp.
    eapply unique_ids_insert; eauto.
  - apply list_find_None in Hfind. rewrite Forall_forall in Hfind.
    apply unique_ids_snoc; [|done].
    intros d Hd Heq. apply (Hfind d Hd). by apply same_player_eq.
Qed.

Lemma onDrawingUpdate_unique (drawing : Drawing.payload) (prev : GameState.t) :
  unique_ids (GameState.drawings prev) ->
  unique_ids (GameState.drawings (onDrawingUpdate drawing prev)).
Proof.
  intros Huniq. rewrite onDrawingUpdate_assign, drawings_assign.
  destruct (list_find _ _) as [[i r]|] eqn:Hfind.
  - apply list_find_Some in Hfind as (Hi & Hp & _). apply same_player_eq in Hp.
    eapply unique_ids_insert; eauto.
  - apply list_find_None in Hfind. rewrite Forall_forall in Hfind.
    apply unique_ids_snoc; [|done].
    intros d Hd Heq. apply (Hfind d Hd). by apply same_player_eq.
Qed.

(** After [drawingSubmitted] the player's record is the submitted drawing,
    so a second application rewrites that record with itself. *)
Lemma onDrawingSubmitted_find (drawing : Drawing.payload) (prev : GameState.t) :
  exists i,
    list_find (fun d => same_player drawing d = true)
      (GameState.drawings (onDrawingSubmitted drawing prev))
    = Some (i, Drawing.spread drawing true).
Proof.
  set (new := Drawing.spread drawing true).
  rewrite onDrawingSubmitted_assign, drawings_assign. fold new.
  set (l := GameState.drawings prev).
  destruct (list_find _ l) as [[k r0]|] eqn:Hfind.
  - exists k. apply list_find_Some in Hfind as (Hk & _ & Hfirst).
    apply list_find_Some. split; [|split].
    + apply list_lookup_insert_eq. by eapply lookup_lt_Some.
    + apply same_player_spread.
    + intros j y Hj Hlt. rewrite list_lookup_insert_ne in Hj by lia. eauto.
  - exists (length l). apply list_find_None in Hfind.
    rewrite Forall_lookup in Hfind.
    apply list_find_Some. split; [|split].
    + rewrite lookup_app_r by lia. by rewrite Nat.sub_diag.
    + apply same_player_spread.
    + intros j y Hj Hlt. rewrite lookup_app_l in Hj by lia. eauto.
Qed.

Lemma onDrawingSubmitted_idempotent (drawing : Drawing.payload) (prev : GameState.t) :
  onDrawingSubmitted drawing (onDrawingSubmitted drawing prev)
  = onDrawingSubmitted drawing prev.
Proof.
  destruct (onDrawingSubmitted_find drawing prev) as [i Hfind].
  rewrite (onDrawingSubmitted_assign drawing (onDrawingSubmitted drawing prev)).
  rewrite Hfind. apply list_find_Some in Hfind as (Hi & _ & _).
  rewrite list_insert_id by done.
  rewrite onDrawingSubmitted_assign. reflexivity.
Qed.

(** ** Delivery and the socket table *)

Lemma deliver_open (h : nat) (s : Socket) (ev : event) (w : world) :
  sockets w !! h = Some s -> closed s = false ->
  deliver h ev w = listener (listeners s) ev w.
Proof. intros Hs Hopen. unfold deliver. by rewrite Hs, Hopen. Qed.

Lemma deliver_closed (h : nat) (ev : event) (w : world) :
  closed <$> sockets w !! h = Some true ->
  deliver h ev w = w.
Proof.
  unfold deliver. destruct (sockets w !! h) as [s|]; [|done].
  simpl. intros [= ->]. done.
Qed.

Lemma deliver_all_closed (h : nat) (evs : list event) (w : world) :
  closed <$> sockets w !! h = Some true ->
  deliver_all h evs w = w.
Proof.
  intros Hc. unfold deliver_all.
  induction evs as [|ev evs IH]; simpl; [done|].
  by rewrite (deliver_closed h ev w Hc).
Qed.

Lemma deliver_all_snoc (h : nat) (evs : list event) (ev : event) (w : world) :
  deliver_all h (evs ++ [ev]) w = deliver h ev (deliver_all h evs w).
Proof. unfold deliver_all. by rewrite foldl_snoc. Qed.

Lemma disconnect_closes (h : nat) (s : Socket) (w : world) :
  sockets w !! h = Some s ->
  closed <$> sockets (disconnect h w) !! h = Some true.
Proof. intros Hs. simpl. by rewrite list_lookup_alter_eq, Hs. Qed.

Lemma disconnect_keeps_closed (h old : nat) (w : world) :
  closed <$> sockets w !! h = Some true ->
  closed <$> sockets (disconnect old w) !! h = Some true.
Proof.
  intros Hc. simpl. destruct (decide (old = h)) as [->|Hne].
  - rewrite list_lookup_alter_eq. by destruct (sockets w !! h).
  - by rewrite list_lookup_alter_ne.
Qed.

Lemma setSocket_null_keeps_closed (h : nat) (w : world) :
  closed <$> sockets w !! h = Some true ->
  closed <$> sockets (setSocket None w) !! h = Some true.
Proof.
  intros Hc. unfold setSocket. destruct (socket w) as [old|]; [|done].
  rewrite bool_decide_false by done.
  by apply (disconnect_keeps_closed h old (mkWorld _ _ _ _)).
Qed.

Lemma setSocket_null_state (w : world) :
  gameState (setSocket None w) = gameState w /\ socket (setSocket None w) = None
  /\ route (setSocket None w) = route w.
Proof.
  unfold setSocket. destruct (socket w) as [old|]; [|done].
  by rewrite bool_decide_false.
Qed.

(** The drawing listeners, and [lobbyUpdate], only touch [gameState]. *)
Lemma setGameState_sockets (a : SetStateAction) (w : world) :
  sockets (setGameState a w) = sockets w.
Proof. reflexivity. Qed.

Lemma deliver_drawing_event_sockets (h : nat) (ev : event) (w : world) :
  is_drawing_event ev = true ->
  sockets (deliver h ev w) = sockets w.
Proof.
  intros Hev. unfold deliver.
  destruct (sockets w !! h) as [s|]; [|done].
  destruct (closed s); [done|].
  destruct ev; try discriminate; reflexivity.
Qed.

Lemma deliver_drawing_event_unique (h : nat) (ev : event) (w : world) :
  is_drawing_event ev = true ->
  unique_ids (GameState.drawings (gameState w)) ->
  unique_ids (GameState.drawings (gameState (deliver h ev w))).
Proof.
  intros Hev Huniq. unfold deliver.
  destruct (sockets w !! h) as [s|]; [|done].
  destruct (closed s); [done|].
  destruct ev; try discriminate; simpl.
  - by apply onDrawingSubmitted_unique.
  - by apply onDrawingUpdate_unique.
Qed.

Lemma deliver_lobbyUpdates_sockets (h : nat) (rosters : list (list Player.t)) (w : world) :
  sockets (deliver_all h (lobbyUpdate <$> rosters) w) = sockets w.
Proof.
  induction rosters as [|r rosters IH] using rev_ind; [done|].
  rewrite fmap_app. simpl. rewrite deliver_all_snoc.
  unfold deliver at 1. rewrite IH.
  destruct (sockets w !! h) as [s|]; [|done].
  destruct (closed s); [done|]. simpl. exact IH.
Qed.

(** Worlds built by [joinGame] and the listeners are well formed. *)
Lemma wf_initialWorld : wf initialWorld.
Proof. intros h s Hs. done. Qed.

Lemma wf_alter (f : Socket -> Socket) (h : nat) (l : list Socket) :
  (forall s, listeners (f s) = listeners s) ->
  (forall k s, l !! k = Some s -> c_newSocket (listeners s) = k) ->
  forall k s, alter f h l !! k = Some s -> c_newSocket (listeners s) = k.
Proof.
  intros Hf Hwf k s. destruct (decide (h = k)) as [->|Hne].
  - rewrite list_lookup_alter_eq. destruct (l !! k) as [s0|] eqn:Hk; [|done].
    simpl. intros [= <-]. rewrite Hf. eauto.
  - rewrite list_lookup_alter_ne by done. eauto.
Qed.

Lemma wf_disconnect (h : nat) (w : world) : wf w -> wf (disconnect h w).
Proof. intros Hwf. unfold wf. simpl. apply wf_alter; [done|exact Hwf]. Qed.

Lemma wf_emit (h : nat) (m : outbound) (w : world) : wf w -> wf (emit h m w).
Proof. intros Hwf. unfold wf. simpl. apply wf_alter; [done|exact Hwf]. Qed.

Lemma wf_setSocket (v : option nat) (w : world) : wf w -> wf (setSocket v w).
Proof.
  intros Hwf. unfold setSocket. destruct (socket w) as [old|]; [|exact Hwf].
  destruct (bool_decide _); [exact Hwf|].
  by apply (wf_disconnect old (mkWorld _ _ _ _)).
Qed.

Lemma wf_joinGame (playerId nickname : string) (w : world) :
  wf w -> wf (joinGame playerId nickname w).
Proof.
  intros Hwf. unfold joinGame, block. simpl. apply wf_setSocket.
  intros k s. simpl. intros Hk.
  apply lookup_app_Some in Hk as [Hk|[Hlen Hk]]; [by apply Hwf|].
  apply list_lookup_singleton_Some in Hk as [Hk <-]. simpl. lia.
Qed.

Lemma wf_deliver (h : nat) (ev : event) (w : world) : wf w -> wf (deliver h ev w).
Proof.
  intros Hwf. unfold deliver.
  destruct (sockets w !! h) as [s|]; [|done].
  destruct (closed s); [done|].
  destruct ev; simpl; try exact Hwf.
  - destruct (GameState.playerId _); [|exact Hwf].
    destruct (_ && _); [|exact Hwf]. by apply wf_emit.
  - unfold block. simpl. by apply (wf_emit _ _ w).
  - unfold block. simpl.
    apply (wf_setSocket None (disconnect _ (setGameState _ w))).
    by apply (wf_disconnect _ (setGameState _ w)).
  - unfold block. simpl.
    apply (wf_setSocket None (disconnect _ (updateGameState _ w))).
    by apply (wf_disconnect _ (updateGameState _ w)).
Qed.

Lemma wf_connectedWorld : wf connectedWorld.
Proof.
  unfold connectedWorld, joinedWorld.
  apply wf_deliver, wf_joinGame, wf_initialWorld.
Qed.

Lemma wf_galleryWorld : wf galleryWorld.
Proof.
  unfold galleryWorld, deliver_all. cbn [foldl].
  do 2 apply wf_deliver. apply wf_connectedWorld.
Qed.

(** ** Session properties *)

(** C10.  Outside any [SocketProvider] (the context is [null])
    [useGameState] throws the error "useGameState must be used within
    SocketProvider"; inside a provider it returns the value of the nearest
    one, which is not [null]. *)
Theorem useGameState_outside_throws_inside_returns :
  useGameState [] =
    inl (mkError "useGameState must be used within SocketProvider")
  /\ forall (value : GameStateContextType) (outer : list GameStateContextType),
       useContext (value :: outer) = Some value
       /\ useGameState (value :: outer) = inr value.
Proof. split; [reflexivity|]. intros value outer. split; reflexivity. Qed.

(** C4.  After any sequence of [lobbyUpdate] events, [players] is exactly
    the roster carried by the last one; nothing of earlier rosters is
    merged in. *)
Theorem lobbyUpdate_players_is_latest_roster
    (h : nat) (s : Socket) (w : world)
    (rosters : list (list Player.t)) (latest : list Player.t) :
  sockets w !! h = Some s ->
  closed s = false ->
  GameState.players
    (gameState (deliver_all h (lobbyUpdate <$> (rosters ++ [latest])) w))
  = latest.
Proof.
  intros Hs Hopen. rewrite fmap_app. simpl. rewrite deliver_all_snoc.
  erewrite deliver_open; [reflexivity| |exact Hopen].
  by rewrite deliver_lobbyUpdates_sockets.
Qed.

Lemma lobbyUpdate_players_is_latest_roster_witness :
  sockets connectedWorld !! 0 = Some firstSocket
  /\ closed firstSocket = false
  /\ GameState.players
       (gameState (deliver_all 0 (lobbyUpdate <$> ([[ava; bo]; []] ++ [[ava]]))
                     connectedWorld))
     = [ava].
Proof.
  split; [reflexivity|]. split; [reflexivity|].
  apply (lobbyUpdate_players_is_latest_roster 0 firstSocket connectedWorld
           [[ava; bo]; []] [ava]); reflexivity.
Defined.

(** C1.  Handling [kicked] leaves [gameState] equal to [initialGameState]
    in every field except [joinError], which is "You were kicked" (the
    resulting record is spelled out); the socket is closed and the
    provider's [socket] is [null], so whatever the transport tries to
    deliver afterwards changes nothing. *)
Theorem kicked_resets_state_and_closes_transport
    (h : nat) (s : Socket) (w : world) :
  wf w ->
  sockets w !! h = Some s ->
  closed s = false ->
  let w' := deliver h kicked w in
  gameState w' =
    GameState.assign initialGameState (GameState.JoinError (Some "You were kicked"))
  /\ gameState w' =
       {| GameState.players := [];
         GameState.isAdmin := false;
         GameState.playerId := None;
         GameState.nickname := "";
         GameState.hasSubmittedDrawing := false;
         GameState.waitingForOthersToSubmit := false;
         GameState.isSubmittingDrawing := false;
         GameState.submitError := None;
         GameState.song := None;
         GameState.allPlayersSubmitted := false;
         GameState.hasJoined := false;
         GameState.joinError := Some "You were kicked";
         GameState.drawings := [] |}
  /\ GameState.joinError (gameState w') = Some "You were kicked"
  /\ closed <$> sockets w' !! h = Some true
  /\ socket w' = None
  /\ forall evs, deliver_all h evs w' = w'.
Proof.
  intros Hwf Hs Hopen w'.
  assert (Hw' : w' =
    router_push "/"
      (updateGameState [GameState.JoinError (Some "You were kicked")]
         (setSocket None (disconnect h (setGameState (Value initialGameState) w))))).
  { subst w'. rewrite (deliver_open h s) by done. simpl.
    rewrite (Hwf h s Hs). reflexivity. }
  set (w1 := disconnect h (setGameState (Value initialGameState) w)) in Hw'.
  assert (Hclosed : closed <$> sockets w' !! h = Some true).
  { rewrite Hw'. simpl. apply setSocket_null_keeps_closed.
    subst w1. by apply (disconnect_closes h s (setGameState _ w)). }
  destruct (setSocket_null_state w1) as (Hg & Hsock & _).
  assert (Hstate : gameState w' =
            GameState.assign initialGameState
              (GameState.JoinError (Some "You were kicked"))).
  { rewrite Hw'. simpl. rewrite Hg. reflexivity. }
  split; [exact Hstate|]. split; [by rewrite Hstate|]. split; [by rewrite Hstate|].
  split; [exact Hclosed|split].
  - rewrite Hw'. simpl. exact Hsock.
  - intros evs. by apply deliver_all_closed.
Qed.

Lemma kicked_resets_state_and_closes_transport_witness :
  wf galleryWorld
  /\ sockets galleryWorld !! 0 = Some firstSocket
  /\ closed firstSocket = false
  /\ gameState (deliver 0 kicked galleryWorld) =
       GameState.assign initialGameState (GameState.JoinError (Some "You were kicked"))
  /\ gameState (deliver 0 kicked galleryWorld) =
       {| GameState.players := [];
         GameState.isAdmin := false;
         GameState.playerId := None;
         GameState.nickname := "";
         GameState.hasSubmittedDrawing := false;
         GameState.waitingForOthersToSubmit := false;
         GameState.isSubmittingDrawing := false;
         GameState.submitError := None;
         GameState.song := None;
         GameState.allPlayersSubmitted := false;
         GameState.hasJoined := false;
         GameState.joinError := Some "You were kicked";
         GameState.drawings := [] |}
  /\ GameState.joinError (gameState (deliver 0 kicked galleryWorld))
     = Some "You were kicked"
  /\ closed <$> sockets (deliver 0 kicked galleryWorld) !! 0 = Some true
  /\ socket (deliver 0 kicked galleryWorld) = None
  /\ deliver_all 0 [drawingUpdate drawingB; lobbyUpdate [ava]; connect]
       (deliver 0 kicked galleryWorld)
     = deliver 0 kicked galleryWorld.
Proof.
  assert (Hwf : wf galleryWorld) by apply wf_galleryWorld.
  split; [exact Hwf|]. split; [reflexivity|]. split; [reflexivity|].
  destruct (kicked_resets_state_and_closes_transport 0 firstSocket galleryWorld
              Hwf eq_refl eq_refl) as (Hg & Hrec & Hje & Hc & Hs & Hterm).
  split; [exact Hg|]. split; [exact Hrec|]. split; [exact Hje|].
  split; [exact Hc|]. split; [exact Hs|]. apply Hterm.
Defined.

(** C8.  Handling [joinRejected(reason)] sets [joinError] to the reason and
    [hasJoined] to false, leaves every other field alone, and closes the
    socket: nothing delivered afterwards is handled, so no join is retried,
    until [joinGame] is called again, which opens a fresh socket. *)
Theorem joinRejected_sets_error_and_closes_transport
    (h : nat) (s : Socket) (w : world) (reason : string) :
  wf w ->
  sockets w !! h = Some s ->
  closed s = false ->
  let w' := deliver h (joinRejected reason) w in
  gameState w' =
    GameState.spread (gameState w)
      [GameState.JoinError (Some reason); GameState.HasJoined false]
  /\ GameState.joinError (gameState w') = Some reason
  /\ GameState.hasJoined (gameState w') = false
  /\ closed <$> sockets w' !! h = Some true
  /\ socket w' = None
  /\ (forall evs, deliver_all h evs w' = w')
  /\ forall playerId nickname,
       closed <$> sockets (joinGame playerId nickname w') !! length (sockets w')
       = Some false.
Proof.
  intros Hwf Hs Hopen w'.
  set (w1 := disconnect h
               (updateGameState
                  [GameState.JoinError (Some reason); GameState.HasJoined false] w)).
  assert (Hw' : w' = setSocket None w1).
  { subst w' w1. rewrite (deliver_open h s) by done. simpl.
    rewrite (Hwf h s Hs). reflexivity. }
  assert (Hclosed : closed <$> sockets w' !! h = Some true).
  { rewrite Hw'. apply setSocket_null_keeps_closed.
    subst w1. by apply (disconnect_closes h s (updateGameState _ w)). }
  destruct (setSocket_null_state w1) as (Hg & Hsock & _).
  rewrite <- Hw' in Hg, Hsock.
  split; [by rewrite Hg|]. split; [by rewrite Hg|]. split; [by rewrite Hg|].
  split; [exact Hclosed|]. split; [exact Hsock|]. split.
  - intros evs. by apply deliver_all_closed.
  - intros playerId nickname. unfold joinGame, block. simpl.
    unfold setSocket. simpl. rewrite Hsock. simpl.
    rewrite lookup_app_r by lia. by rewrite Nat.sub_diag.
Qed.

Lemma joinRejected_sets_error_and_closes_transport_witness :
  wf connectedWorld
  /\ sockets connectedWorld !! 0 = Some firstSocket
  /\ closed firstSocket = false
  /\ GameState.joinError (gameState (deliver 0 (joinRejected "Lobby full") connectedWorld))
     = Some "Lobby full"
  /\ GameState.hasJoined (gameState (deliver 0 (joinRejected "Lobby full") connectedWorld))
     = false
  /\ closed <$> sockets (deliver 0 (joinRejected "Lobby full") connectedWorld) !! 0
     = Some true
  /\ deliver_all 0 [connect; reconnect 1; lobbyUpdate [ava]]
       (deliver 0 (joinRejected "Lobby full") connectedWorld)
     = deliver 0 (joinRejected "Lobby full") connectedWorld.
Proof.
  assert (Hwf : wf connectedWorld) by apply wf_connectedWorld.
  split; [exact Hwf|]. split; [reflexivity|]. split; [reflexivity|].
  destruct (joinRejected_sets_error_and_closes_transport 0 firstSocket
              connectedWorld "Lobby full" Hwf eq_refl eq_refl)
    as (_ & He & Hj & Hc & _ & Hterm & _).
  split; [exact He|]. split; [exact Hj|]. split; [exact Hc|apply Hterm].
Defined.

(** C5.  If the record of a player is already submitted, a
    [drawingUpdate] for that player leaves a record of that player, still
    submitted, at the same position. *)
Theorem drawingUpdate_never_downgrades_submitted
    (h : nat) (s : Socket) (w : world) (drawing : Drawing.payload)
    (i : nat) (r : Drawing.t) :
  sockets w !! h = Some s ->
  closed s = false ->
  GameState.drawings (gameState w) !! i = Some r ->
  Drawing.playerId r = Drawing.p_playerId drawing ->
  Drawing.submitted r = true ->
  exists r',
    GameState.drawings (gameState (deliver h (drawingUpdate drawing) w)) !! i = Some r'
    /\ Drawing.playerId r' = Drawing.p_playerId drawing
    /\ Drawing.submitted r' = true.
Proof.
  intros Hs Hopen Hi Hid Hsub.
  rewrite (deliver_open h s) by done. simpl.
  rewrite onDrawingUpdate_assign, drawings_assign.
  destruct (list_find_same_player drawing _ i r Hi Hid) as (k & r0 & Hfind & Hle).
  rewrite Hfind. apply list_find_Some in Hfind as (Hk & _ & _).
  destruct (decide (k = i)) as [->|Hne].
  - assert (r0 = r) as -> by congruence.
    exists (Drawing.spread drawing (Drawing.submitted r)).
    rewrite list_lookup_insert_eq by (by eapply lookup_lt_Some).
    by rewrite Hsub.
  - exists r. by rewrite list_lookup_insert_ne.
Qed.

Lemma drawingUpdate_never_downgrades_submitted_witness :
  sockets galleryWorld !! 0 = Some firstSocket
  /\ closed firstSocket = false
  /\ GameState.drawings (gameState galleryWorld) !! 1 = Some (Drawing.spread drawingA true)
  /\ exists r',
       GameState.drawings (gameState (deliver 0 (drawingUpdate drawingB) galleryWorld)) !! 1
       = Some r'
       /\ Drawing.playerId r' = "p2"
       /\ Drawing.submitted r' = true.
Proof.
  split; [reflexivity|]. split; [reflexivity|]. split; [reflexivity|].
  apply (drawingUpdate_never_downgrades_submitted 0 firstSocket galleryWorld drawingB
           1 (Drawing.spread drawingA true)); reflexivity.
Defined.

(** C6.  Whatever the gallery held before, after [drawingSubmitted] the
    record found for that player (the first one carrying its identifier)
    has the event's nickname and image and [submitted = true]; and handling
    the same event a second time changes nothing (the gallery, and the
    whole world, stay as after the first). *)
Theorem drawingSubmitted_sets_submitted_and_is_idempotent
    (h : nat) (s : Socket) (w : world) (drawing : Drawing.payload) :
  sockets w !! h = Some s ->
  closed s = false ->
  (exists i,
     list_find (fun d => same_player drawing d = true)
       (GameState.drawings (gameState (deliver h (drawingSubmitted drawing) w)))
     = Some (i, Drawing.spread drawing true))
  /\ (exists i r,
       GameState.drawings (gameState (deliver h (drawingSubmitted drawing) w)) !! i
       = Some r
       /\ (forall j r0,
             GameState.drawings (gameState (deliver h (drawingSubmitted drawing) w)) !! j
             = Some r0 ->
             Drawing.playerId r0 = Drawing.p_playerId drawing -> i <= j)
       /\ Drawing.playerId r = Drawing.p_playerId drawing
       /\ Drawing.nickname r = Drawing.p_nickname drawing
       /\ Drawing.imageData r = Drawing.p_imageData drawing
       /\ Drawing.submitted r = true)
  /\ GameState.drawings
       (gameState (deliver h (drawingSubmitted drawing)
                     (deliver h (drawingSubmitted drawing) w)))
     = GameState.drawings (gameState (deliver h (drawingSubmitted drawing) w))
  /\ deliver h (drawingSubmitted drawing) (deliver h (drawingSubmitted drawing) w)
     = deliver h (drawingSubmitted drawing) w.
Proof.
  intros Hs Hopen.
  assert (Hw1 : forall w0, sockets w0 = sockets w ->
                  deliver h (drawingSubmitted drawing) w0 =
                  setGameState (Updater (onDrawingSubmitted drawing)) w0).
  { intros w0 Hw0. apply (deliver_open h s); [by rewrite Hw0|done]. }
  assert (Hidem : deliver h (drawingSubmitted drawing)
                    (deliver h (drawingSubmitted drawing) w)
                  = deliver h (drawingSubmitted drawing) w).
  { rewrite (Hw1 w eq_refl), (Hw1 _ (setGameState_sockets _ w)).
    unfold setGameState. cbn [gameState socket sockets route].
    by rewrite onDrawingSubmitted_idempotent. }
  assert (Hfound : exists i,
            list_find (fun d => same_player drawing d = true)
              (GameState.drawings (gameState (deliver h (drawingSubmitted drawing) w)))
            = Some (i, Drawing.spread drawing true)).
  { rewrite (Hw1 w eq_refl). apply onDrawingSubmitted_find. }
  split; [exact Hfound|]. split; [|split].
  - destruct Hfound as [i Hfind].
    apply list_find_Some in Hfind as (Hi & _ & Hfirst).
    exists i, (Drawing.spread drawing true).
    split; [exact Hi|]. split; [|done].
    intros j r0 Hj Hid. destruct (decide (i <= j)) as [|Hlt]; [done|].
    exfalso. apply (Hfirst j r0 Hj); [lia|]. by apply same_player_eq.
  - by rewrite Hidem.
  - exact Hidem.
Qed.

Lemma drawingSubmitted_sets_submitted_and_is_idempotent_witness :
  sockets galleryWorld !! 0 = Some firstSocket
  /\ closed firstSocket = false
  /\ GameState.drawings (gameState galleryWorld)
     = [Drawing.mk "p1" "Ava" "C" false; Drawing.mk "p2" "Bo" "A" true]
  /\ GameState.drawings (gameState (deliver 0 (drawingSubmitted drawingC) galleryWorld))
     = [Drawing.mk "p1" "Ava" "C" true; Drawing.mk "p2" "Bo" "A" true]
  /\ (exists i r,
       GameState.drawings (gameState (deliver 0 (drawingSubmitted drawingC) galleryWorld)) !! i
       = Some r
       /\ Drawing.playerId r = "p1"
       /\ Drawing.submitted r = true)
  /\ deliver 0 (drawingSubmitted drawingC) (deliver 0 (drawingSubmitted drawingC) galleryWorld)
     = deliver 0 (drawingSubmitted drawingC) galleryWorld.
Proof.
  split; [reflexivity|]. split; [reflexivity|]. split; [reflexivity|].
  split; [reflexivity|].
  destruct (drawingSubmitted_sets_submitted_and_is_idempotent 0 firstSocket galleryWorld
              drawingC eq_refl eq_refl)
    as (_ & (i & r & Hi & _ & Hid & _ & _ & Hsub) & _ & Hidem).
  split; [|exact Hidem].
  exists i, r. split; [exact Hi|]. split; [exact Hid|exact Hsub].
Defined.

(** C7.  Starting from a gallery with at most one record per player (the
    empty initial gallery is one), every sequence of [drawingUpdate] and
    [drawingSubmitted] events keeps at most one record per player.  An
    event whose player already has a record at index [i] overwrites index
    [i] and touches nothing else; an event whose player has no record
    appends one at the end. *)
Theorem drawing_events_upsert_by_playerId
    (h : nat) (s : Socket) (w : world) :
  sockets w !! h = Some s ->
  closed s = false ->
  unique_ids (GameState.drawings (gameState w)) ->
  let l := GameState.drawings (gameState w) in
  let after ev := GameState.drawings (gameState (deliver h ev w)) in
  (forall evs,
      forallb is_drawing_event evs = true ->
      unique_ids (GameState.drawings (gameState (deliver_all h evs w))))
  /\ (forall drawing i old,
        l !! i = Some old ->
        Drawing.playerId old = Drawing.p_playerId drawing ->
        after (drawingSubmitted drawing) = <[i := Drawing.spread drawing true]> l
        /\ after (drawingUpdate drawing)
           = <[i := Drawing.spread drawing (Drawing.submitted old)]> l
        /\ forall ev, ev = drawingSubmitted drawing \/ ev = drawingUpdate drawing ->
             length (after ev) = length l
             /\ forall j, j <> i -> after ev !! j = l !! j)
  /\ (forall drawing,
        (forall old, old ∈ l -> Drawing.playerId old <> Drawing.p_playerId drawing) ->
        after (drawingSubmitted drawing) = l ++ [Drawing.spread drawing true]
        /\ after (drawingUpdate drawing) = l ++ [Drawing.spread drawing false]).
Proof.
  intros Hs Hopen Huniq l after.
  assert (Hsub : forall drawing,
             after (drawingSubmitted drawing) =
             GameState.drawings (onDrawingSubmitted drawing (gameState w))).
  { intros drawing. unfold after. by rewrite (deliver_open h s). }
  assert (Hupd : forall drawing,
             after (drawingUpdate drawing) =
             GameState.drawings (onDrawingUpdate drawing (gameState w))).
  { intros drawing. unfold after. by rewrite (deliver_open h s). }
  split; [|split].
  - clear Hs Hopen Hsub Hupd after l. intros evs. revert w Huniq.
    induction evs as [|ev evs IH]; intros w Huniq Hevs; [done|].
    simpl in Hevs. apply andb_prop in Hevs as [Hev Hevs].
    apply (IH (deliver h ev w)); [|done].
    by apply deliver_drawing_event_unique.
  - intros drawing i old Hi Hid.
    pose proof (list_find_unique drawing l i old Huniq Hi Hid) as Hfind.
    assert (H1 : after (drawingSubmitted drawing)
                 = <[i := Drawing.spread drawing true]> l).
    { rewrite Hsub, onDrawingSubmitted_assign, drawings_assign.
      fold l. by rewrite Hfind. }
    assert (H2 : after (drawingUpdate drawing)
                 = <[i := Drawing.spread drawing (Drawing.submitted old)]> l).
    { rewrite Hupd, onDrawingUpdate_assign, drawings_assign.
      fold l. by rewrite Hfind. }
    split; [exact H1|]. split; [exact H2|].
    intros ev [-> | ->]; [rewrite H1|rewrite H2];
      (split; [apply length_insert|]);
      intros j Hj; by rewrite list_lookup_insert_ne.
  - intros drawing Hfresh.
    assert (Hfind : list_find (fun d => same_player drawing d = true) l = None).
    { apply list_find_None, Forall_forall. intros d Hd Hp.
      apply (Hfresh d Hd). by apply same_player_eq. }
    split.
    + rewrite Hsub, onDrawingSubmitted_assign, drawings_assign.
      fold l. by rewrite Hfind.
    + rewrite Hupd, onDrawingUpdate_assign, drawings_assign.
      fold l. by rewrite Hfind.
Qed.

Lemma unique_ids_initialGameState :
  unique_ids (GameState.drawings initialGameState).
Proof. apply NoDup_nil_2. Qed.

Lemma unique_ids_galleryWorld :
  unique_ids (GameState.drawings (gameState galleryWorld)).
Proof.
  unfold unique_ids. simpl.
  apply NoDup_cons. split; [|apply NoDup_singleton].
  rewrite list_elem_of_singleton. discriminate.
Qed.

Lemma drawing_events_upsert_by_playerId_witness :
  sockets galleryWorld !! 0 = Some firstSocket
  /\ closed firstSocket = false
  /\ unique_ids (GameState.drawings (gameState galleryWorld))
  /\ unique_ids
       (GameState.drawings
          (gameState
             (deliver_all 0
                [drawingUpdate drawingB; drawingSubmitted drawingC; drawingUpdate drawingA]
                galleryWorld)))
  /\ GameState.drawings (gameState (deliver 0 (drawingUpdate drawingB) galleryWorld))
     = <[1 := Drawing.spread drawingB true]> (GameState.drawings (gameState galleryWorld)).
Proof.
  pose proof unique_ids_galleryWorld as Huniq.
  split; [reflexivity|]. split; [reflexivity|]. split; [exact Huniq|].
  destruct (drawing_events_upsert_by_playerId 0 firstSocket galleryWorld
              eq_refl eq_refl Huniq) as (Hinv & Hfound & _).
  split.
  - apply Hinv. reflexivity.
  - apply (Hfound drawingB 1 (Drawing.spread drawingA true)); reflexivity.
Defined.

(** The [connect] listener sends the identifier and nickname that
    [joinGame] generated and received, whatever the state is by then. *)
Lemma connect_listener_sends_join_identity
    (h : nat) (s : Socket) (w : world) :
  wf w ->
  sockets w !! h = Some s ->
  closed s = false ->
  outbox <$> sockets (deliver h connect w) !! h
  = Some (outbox s ++ [joinLobby (c_playerId (listeners s)) (c_nickname (listeners s))]).
Proof.
  intros Hwf Hs Hopen. rewrite (deliver_open h s) by done.
  simpl. rewrite (Hwf h s Hs), list_lookup_alter_eq, Hs. reflexivity.
Qed.

(** The listener registered under [reconnect] reads the [gameState] of the
    render that created [joinGame].  It takes no part in a reconnection:
    the socket does not fire [reconnect] (see [event]). *)
Lemma reconnect_listener_reads_captured_render
    (h : nat) (s : Socket) (w : world) (attemptNumber : nat) :
  wf w ->
  sockets w !! h = Some s ->
  closed s = false ->
  outbox <$> sockets (deliver h (reconnect attemptNumber) w) !! h
  = Some (outbox s ++
          match GameState.playerId (c_gameState (listeners s)) with
          | Some playerId =>
              if truthy (GameState.nickname (c_gameState (listeners s))) && truthy playerId
              then [joinLobby playerId (GameState.nickname (c_gameState (listeners s)))]
              else []
          | None => []
          end).
Proof.
  intros Hwf Hs Hopen. rewrite (deliver_open h s) by done. simpl.
  destruct (GameState.playerId _) as [playerId|].
  - destruct (_ && _).
    + simpl. rewrite (Hwf h s Hs), list_lookup_alter_eq, Hs. reflexivity.
    + unfold block. simpl. rewrite Hs. simpl. by rewrite app_nil_r.
  - unfold block. simpl. rewrite Hs. simpl. by rewrite app_nil_r.
Qed.

(** ** Whiteboard properties *)

Section WhiteboardProperties.

Context {num : Type} (minus : num -> num -> num).
Context (toDataURL : Whiteboard.Canvas (num := num) -> string -> string).

(** Only [drawingSubmitted] makes a submitted record appear in the
    gallery: after any other event, a submitted record was already a
    submitted record of that player before. *)
Lemma submitted_records_come_from_drawingSubmitted
    (h : nat) (ev : event) (w : world) (r : Drawing.t) :
  r ∈ GameState.drawings (gameState (deliver h ev w)) ->
  Drawing.submitted r = true ->
  (exists drawing, ev = drawingSubmitted drawing)
  \/ (exists r0, r0 ∈ GameState.drawings (gameState w)
                 /\ Drawing.playerId r0 = Drawing.playerId r
                 /\ Drawing.submitted r0 = true).
Proof.
  intros Hin Hsub. unfold deliver in Hin.
  destruct (sockets w !! h) as [s|]; [|right; eauto].
  destruct (closed s); [right; eauto|].
  destruct ev; simpl in Hin; try (right; eauto; fail).
  - destruct (GameState.playerId _); [|right; eauto].
    destruct (_ && _); right; eauto.
  - unfold block in Hin. simpl in Hin.
    destruct (setSocket_null_state
                (disconnect (c_newSocket (listeners s))
                   (setGameState (Value initialGameState) w))) as (Hg & _).
    rewrite Hg in Hin. simpl in Hin. by apply elem_of_nil in Hin.
  - unfold block in Hin. simpl in Hin.
    destruct (setSocket_null_state
                (disconnect (c_newSocket (listeners s))
                   (updateGameState
                      [GameState.JoinError (Some reason); GameState.HasJoined false] w)))
      as (Hg & _).
    rewrite Hg in Hin. right; eauto.
  - left; eauto.
  - right. rewrite onDrawingUpdate_assign, drawings_assign in Hin.
    destruct (list_find _ _) as [[i r0]|] eqn:Hfind.
    + apply list_find_Some in Hfind as (Hi & Hp & _). apply same_player_eq in Hp.
      apply list_elem_of_lookup in Hin as [j Hj].
      destruct (decide (i = j)) as [<-|Hne].
      * rewrite list_lookup_insert_eq in Hj by (by eapply lookup_lt_Some).
        injection Hj as <-. exists r0. split; [|split].
        -- by eapply list_elem_of_lookup_2.
        -- by rewrite Hp.
        -- exact Hsub.
      * rewrite list_lookup_insert_ne in Hj by done.
        exists r. split; [by eapply list_elem_of_lookup_2|done].
    + apply elem_of_app in Hin as [Hin|Hin]; [eauto|].
      apply list_elem_of_singleton in Hin. subst r. discriminate.
Qed.

(** C3, as the code has it.  [handleSubmit] encodes the mounted canvas as
    a PNG data URL and logs it; it sends nothing on the socket (no
    submission, no [draw] segment) and changes neither the stroke state nor
    the canvas.  It produces no submitted record: in the session store
    those appear only through the [drawingSubmitted] listener. *)
Theorem handleSubmit_logs_capture_and_sends_nothing (b : Whiteboard.board) :
  let b' := Whiteboard.handleSubmit toDataURL b in
  Whiteboard.socket b' = Whiteboard.socket b
  /\ Whiteboard.transmitted b' = Whiteboard.transmitted b
  /\ Whiteboard.isDrawing b' = Whiteboard.isDrawing b
  /\ Whiteboard.lastPoint b' = Whiteboard.lastPoint b
  /\ Whiteboard.canvasRef b' = Whiteboard.canvasRef b
  /\ Whiteboard.console b' =
       Whiteboard.console b ++
       match Whiteboard.canvasRef b with
       | Some canvas => [["Canvas data:"; toDataURL canvas "image/png"]]
       | None => []
       end
  /\ forall h ev w r,
       r ∈ GameState.drawings (gameState (deliver h ev w)) ->
       Drawing.submitted r = true ->
       (exists drawing, ev = drawingSubmitted drawing)
       \/ (exists r0, r0 ∈ GameState.drawings (gameState w)
                      /\ Drawing.playerId r0 = Drawing.playerId r
                      /\ Drawing.submitted r0 = true).
Proof.
  intros b'. subst b'. unfold Whiteboard.handleSubmit, Whiteboard.transmitted.
  destruct (Whiteboard.canvasRef b) as [canvas|] eqn:Hc; simpl;
    repeat (split; [try reflexivity; try (by rewrite app_nil_r); done|]);
    apply submitted_records_come_from_drawingSubmitted.
Qed.

(** C9, as the code has it.  With a stroke in progress, [draw] moves the
    anchor to the new point.  If the canvas has a 2D context, the segment
    from the anchor to the point is stroked on it and, if a socket is
    present, [draw] is emitted with exactly [{start: anchor, end: point}];
    without a context nothing is stroked or sent.  With no stroke in
    progress [draw] changes nothing. *)
Theorem draw_strokes_sends_and_advances (e : Whiteboard.pointer) (b : Whiteboard.board) :
  let b' := Whiteboard.draw minus e b in
  (forall anchor point,
      Whiteboard.isDrawing b = true ->
      Whiteboard.lastPoint b = Some anchor ->
      Whiteboard.getCoordinates minus e b = Some point ->
      Whiteboard.lastPoint b' = Some point
      /\ Whiteboard.isDrawing b' = true
      /\ Whiteboard.console b' = Whiteboard.console b
      /\ match Whiteboard.getContext b with
         | Some canvas =>
             Whiteboard.canvasRef b' =
               Some (Whiteboard.mkCanvas (Whiteboard.rect canvas)
                       (Whiteboard.context2d canvas)
                       (Whiteboard.strokes canvas ++ [(anchor, point)]))
             /\ match Whiteboard.socket b with
                | Some sk =>
                    Whiteboard.socket b' =
                      Some (Whiteboard.mkSocket
                              (Whiteboard.sent sk ++ [Whiteboard.Draw anchor point]))
                | None => Whiteboard.socket b' = None
                end
         | None =>
             Whiteboard.canvasRef b' = Whiteboard.canvasRef b
             /\ Whiteboard.socket b' = Whiteboard.socket b
         end)
  /\ (Whiteboard.isDrawing b = false \/ Whiteboard.lastPoint b = None -> b' = b).
Proof.
  intros b'. subst b'. unfold Whiteboard.draw. split.
  - intros anchor point Hactive Hanchor Hpoint.
    rewrite Hactive, Hanchor, Hpoint.
    destruct (Whiteboard.getContext b) as [canvas|]; [|done].
    unfold Whiteboard.emit. simpl.
    destruct (Whiteboard.socket b) as [sk|] eqn:Hsk; simpl; rewrite ?Hsk; done.
  - intros [-> | ->]; [done|]. by destruct (Whiteboard.isDrawing b).
Qed.

End WhiteboardProperties.

Lemma handleSubmit_logs_capture_and_sends_nothing_witness :
  Whiteboard.transmitted (Whiteboard.handleSubmit dataURL sketchedBoard)
  = [Whiteboard.Draw (Whiteboard.mkPoint 10%Z 10%Z) (Whiteboard.mkPoint 20%Z 20%Z)]
  /\ Whiteboard.console (Whiteboard.handleSubmit dataURL sketchedBoard)
     = [["Canvas data:"; "data:image/png;base64,"]].
Proof.
  destruct (handleSubmit_logs_capture_and_sends_nothing dataURL sketchedBoard)
    as (_ & Ht & _ & _ & _ & Hlog & _).
  split; [exact Ht|exact Hlog].
Defined.

(** C3 as stated fails: submitting a sketched canvas with a socket in
    place sends no message at all; the socket has carried only the [draw]
    segment made earlier. *)
Lemma handleSubmit_transmits_no_submission :
  Whiteboard.canvasRef sketchedBoard =
    Some (Whiteboard.mkCanvas (Whiteboard.mkRect 0%Z 0%Z) true
            [(Whiteboard.mkPoint 10%Z 10%Z, Whiteboard.mkPoint 20%Z 20%Z)])
  /\ Whiteboard.transmitted sketchedBoard =
       [Whiteboard.Draw (Whiteboard.mkPoint 10%Z 10%Z) (Whiteboard.mkPoint 20%Z 20%Z)]
  /\ Whiteboard.transmitted (Whiteboard.handleSubmit dataURL sketchedBoard)
     = Whiteboard.transmitted sketchedBoard.
Proof. split; [|split]; reflexivity. Qed.

Lemma draw_strokes_sends_and_advances_witness :
  Whiteboard.isDrawing activeBoard = true
  /\ Whiteboard.lastPoint activeBoard = Some (Whiteboard.mkPoint 10%Z 10%Z)
  /\ Whiteboard.getCoordinates Z.sub (Whiteboard.MouseEv 20%Z 20%Z) activeBoard
     = Some (Whiteboard.mkPoint 20%Z 20%Z)
  /\ Whiteboard.lastPoint (Whiteboard.draw Z.sub (Whiteboard.MouseEv 20%Z 20%Z) activeBoard)
     = Some (Whiteboard.mkPoint 20%Z 20%Z)
  /\ Whiteboard.draw Z.sub (Whiteboard.MouseEv 20%Z 20%Z) idleBoard = idleBoard.
Proof.
  split; [reflexivity|]. split; [reflexivity|]. split; [reflexivity|].
  destruct (draw_strokes_sends_and_advances Z.sub (Whiteboard.MouseEv 20%Z 20%Z) activeBoard)
    as (Hactive & _).
  destruct (draw_strokes_sends_and_advances Z.sub (Whiteboard.MouseEv 20%Z 20%Z) idleBoard)
    as (_ & Hidle).
  split.
  - apply (Hactive (Whiteboard.mkPoint 10%Z 10%Z) (Whiteboard.mkPoint 20%Z 20%Z));
      reflexivity.
  - apply Hidle. left. reflexivity.
Defined.

(** C9 as stated fails: with a stroke in progress on a canvas that has its
    context, but no socket, the segment is stroked and nothing is
    transmitted. *)
Lemma draw_without_socket_transmits_nothing :
  Whiteboard.isDrawing offlineBoard = true
  /\ Whiteboard.lastPoint offlineBoard = Some (Whiteboard.mkPoint 10%Z 10%Z)
  /\ Whiteboard.getCoordinates Z.sub (Whiteboard.MouseEv 20%Z 20%Z) offlineBoard
     = Some (Whiteboard.mkPoint 20%Z 20%Z)
  /\ Whiteboard.canvasRef (Whiteboard.draw Z.sub (Whiteboard.MouseEv 20%Z 20%Z) offlineBoard)
     = Some (Whiteboard.mkCanvas (Whiteboard.mkRect 0%Z 0%Z) true
               [(Whiteboard.mkPoint 10%Z 10%Z, Whiteboard.mkPoint 20%Z 20%Z)])
  /\ Whiteboard.transmitted (Whiteboard.draw Z.sub (Whiteboard.MouseEv 20%Z 20%Z) offlineBoard)
     = [].
Proof. repeat split. Qed.

(** ** Scenarios *)

(** "Ava" joins and the server announces the lobby, makes her admin and
    then rejects her. *)
Example scenario_lobby_admin_rejected :
  let w1 := deliver 0 (lobbyUpdate [ava]) connectedWorld in
  let w2 := deliver 0 adminJoined w1 in
  let w3 := deliver 0 (joinRejected "Lobby full") w2 in
  GameState.players (gameState w1) = [ava]
  /\ GameState.isAdmin (gameState w2) = true
  /\ GameState.joinError (gameState w3) = Some "Lobby full"
  /\ GameState.hasJoined (gameState w3) = false
  /\ closed <$> sockets w3 !! 0 = Some true
  /\ GameState.isAdmin (gameState w3) = true.
Proof. repeat split. Qed.

(** Two updates from p2 and then the submission: one record throughout. *)
Example scenario_update_update_submit :
  let w2 := deliver_all 0 [drawingUpdate drawingA; drawingUpdate drawingB] connectedWorld in
  let w3 := deliver 0 (drawingSubmitted (Drawing.mkPayload "p2" "Bo" "C")) w2 in
  GameState.drawings (gameState w2) = [Drawing.mk "p2" "Bo" "B" false]
  /\ GameState.drawings (gameState w3) = [Drawing.mk "p2" "Bo" "C" true].
Proof. split; reflexivity. Qed.

(** The local user continues a stroke from (10, 10) to (20, 20). *)
Example scenario_local_segment :
  let b := Whiteboard.draw Z.sub (Whiteboard.MouseEv 20%Z 20%Z) activeBoard in
  Whiteboard.transmitted b =
    [Whiteboard.Draw (Whiteboard.mkPoint 10%Z 10%Z) (Whiteboard.mkPoint 20%Z 20%Z)]
  /\ Whiteboard.strokes <$> Whiteboard.canvasRef b =
       Some [(Whiteboard.mkPoint 10%Z 10%Z, Whiteboard.mkPoint 20%Z 20%Z)]
  /\ Whiteboard.lastPoint b = Some (Whiteboard.mkPoint 20%Z 20%Z).
Proof. repeat split. Qed.

(** A touch is located relative to the canvas. *)
Example scenario_touch_coordinates :
  Whiteboard.getCoordinates Z.sub (Whiteboard.TouchEv 35%Z 50%Z)
    (Whiteboard.mkBoard false None
       (Some (Whiteboard.mkCanvas (Whiteboard.mkRect 5%Z 10%Z) true [])) None [])
  = Some (Whiteboard.mkPoint 30%Z 40%Z).
Proof. reflexivity. Qed.

(** [findIndex] on a gallery. *)
Example scenario_findIndex :
  findIndex (same_player drawingA) (GameState.drawings (gameState galleryWorld)) = 1%Z
  /\ findIndex (same_player (Drawing.mkPayload "p9" "Zed" ""))
       (GameState.drawings (gameState galleryWorld)) = (-1)%Z.
Proof. split; reflexivity. Qed.

(** ** Further properties: the shallow merge *)

Lemma read_assign_same (s : GameState.t) (p : GameState.property) :
  read (GameState.assign s p) (field_of p) = p.
Proof. by destruct p. Qed.

Lemma read_assign_other (s : GameState.t) (p : GameState.property) (k : field) :
  field_of p <> k -> read (GameState.assign s p) k = read s k.
Proof. by destruct p, k. Qed.

Lemma read_ext (s s' : GameState.t) :
  (forall k, read s k = read s' k) -> s = s'.
Proof.
  intros H. destruct s, s'.
  pose proof (H FPlayers) as H1. pose proof (H FIsAdmin) as H2.
  pose proof (H FPlayerId) as H3. pose proof (H FNickname) as H4.
  pose proof (H FHasSubmittedDrawing) as H5.
  pose proof (H FWaitingForOthersToSubmit) as H6.
  pose proof (H FIsSubmittingDrawing) as H7. pose proof (H FSubmitError) as H8.
  pose proof (H FSong) as H9. pose proof (H FAllPlayersSubmitted) as H10.
  pose proof (H FHasJoined) as H11. pose proof (H FJoinError) as H12.
  pose proof (H FDrawings) as H13.
  simpl in *. congruence.
Qed.

Lemma read_spread (s : GameState.t) (updates : list GameState.property) (k : field) :
  read (GameState.spread s updates) k =
  default (read s k) (last (filter (fun p => field_of p = k) updates)).
Proof.
  unfold GameState.spread.
  induction updates as [|p updates IH] using rev_ind; [done|].
  rewrite foldl_snoc, filter_app.
  destruct (decide (field_of p = k)) as [<-|Hne].
  - rewrite filter_cons_True by done. rewrite filter_nil, last_snoc. simpl.
    apply read_assign_same.
  - rewrite filter_cons_False by done. rewrite filter_nil, app_nil_r.
    by rewrite read_assign_other.
Qed.

(** X1.  [updateGameState(updates)] is a shallow merge: each field of the
    new state is the value of the last property of [updates] written under
    that key, and the previous value when [updates] has no such property.
    Nothing but [gameState] changes. *)
Theorem updateGameState_merges_by_key
    (updates : list GameState.property) (w : world) (k : field) :
  read (gameState (updateGameState updates w)) k =
    default (read (gameState w) k) (last (filter (fun p => field_of p = k) updates))
  /\ socket (updateGameState updates w) = socket w
  /\ sockets (updateGameState updates w) = sockets w
  /\ route (updateGameState updates w) = route w.
Proof. split; [apply read_spread|done]. Qed.

(** X2.  Two merges in a row are the merge of the concatenated literals,
    and repeating a merge changes nothing. *)
Theorem updateGameState_composes_and_is_idempotent
    (u1 u2 : list GameState.property) (w : world) :
  updateGameState u2 (updateGameState u1 w) = updateGameState (u1 ++ u2) w
  /\ updateGameState u1 (updateGameState u1 w) = updateGameState u1 w.
Proof.
  split.
  - unfold updateGameState, setGameState, GameState.spread. simpl.
    by rewrite foldl_app.
  - unfold updateGameState, setGameState. simpl. f_equal.
    apply read_ext. intros k. rewrite !read_spread.
    by destruct (last _).
Qed.

(** ** Further properties: joining *)

Lemma joinGame_gameState (playerId nickname : string) (w : world) :
  gameState (joinGame playerId nickname w) =
  GameState.spread (gameState w)
    [GameState.PlayerId (Some playerId); GameState.Nickname nickname].
Proof.
  unfold joinGame, block. simpl. unfold setSocket. simpl.
  destruct (socket w) as [old|]; [|done]. by destruct (bool_decide _).
Qed.

Lemma joinGame_opens_fresh_socket_aux (playerId nickname : string) (w : world) :
  sockets (joinGame playerId nickname w) !! length (sockets w) =
  Some (mkSocket (mkClosure (gameState w) playerId nickname (length (sockets w))) false []).
Proof.
  unfold joinGame, block. simpl. unfold setSocket. simpl.
  assert (Hnew : forall l : list Socket, forall x, (l ++ [x]) !! length l = Some x).
  { intros l x. rewrite lookup_app_r by lia. by rewrite Nat.sub_diag. }
  destruct (socket w) as [old|]; simpl; [|apply Hnew].
  destruct (bool_decide _) eqn:Hd; simpl; [apply Hnew|].
  apply bool_decide_eq_false in Hd.
  rewrite list_lookup_alter_ne by congruence. apply Hnew.
Qed.

(** X3.  [joinGame] sets [playerId] to the generated identifier and
    [nickname] to its argument and touches no other field (in particular
    not [hasJoined]; the resulting record is spelled out); it creates one
    new socket, open and with nothing sent, whose listeners close over the
    state as it was before the call, and stores it in [socket]. *)
Theorem joinGame_opens_fresh_socket (playerId nickname : string) (w : world) :
  let w' := joinGame playerId nickname w in
  let newSocket := length (sockets w) in
  gameState w' =
    GameState.spread (gameState w)
      [GameState.PlayerId (Some playerId); GameState.Nickname nickname]
  /\ GameState.hasJoined (gameState w') = GameState.hasJoined (gameState w)
  /\ socket w' = Some newSocket
  /\ length (sockets w') = S newSocket
  /\ sockets w' !! newSocket =
       Some (mkSocket (mkClosure (gameState w) playerId nickname newSocket) false [])
  /\ route w' = route w
  /\ GameState.playerId (gameState w') = Some playerId
  /\ GameState.nickname (gameState w') = nickname
  /\ gameState w' =
       {| GameState.players := GameState.players (gameState w);
          GameState.isAdmin := GameState.isAdmin (gameState w);
          GameState.playerId := Some playerId;
          GameState.nickname := nickname;
          GameState.hasSubmittedDrawing := GameState.hasSubmittedDrawing (gameState w);
          GameState.waitingForOthersToSubmit :=
            GameState.waitingForOthersToSubmit (gameState w);
          GameState.isSubmittingDrawing := GameState.isSubmittingDrawing (gameState w);
          GameState.submitError := GameState.submitError (gameState w);
          GameState.song := GameState.song (gameState w);
          GameState.allPlayersSubmitted := GameState.allPlayersSubmitted (gameState w);
          GameState.hasJoined := GameState.hasJoined (gameState w);
          GameState.joinError := GameState.joinError (gameState w);
          GameState.drawings := GameState.drawings (gameState w) |}.
Proof.
  intros w' newSocket.
  assert (Hstate : gameState w' =
            GameState.spread (gameState w)
              [GameState.PlayerId (Some playerId); GameState.Nickname nickname])
    by apply joinGame_gameState.
  cut (gameState w' =
         GameState.spread (gameState w)
           [GameState.PlayerId (Some playerId); GameState.Nickname nickname]
       /\ GameState.hasJoined (gameState w') = GameState.hasJoined (gameState w)
       /\ socket w' = Some newSocket
       /\ length (sockets w') = S newSocket
       /\ sockets w' !! newSocket =
            Some (mkSocket (mkClosure (gameState w) playerId nickname newSocket) false [])
       /\ route w' = route w).
  { intros (H1 & H2 & H3 & H4 & H5 & H6).
    repeat (split; [assumption|]). rewrite Hstate. repeat split. }
  clear Hstate. subst w'. unfold joinGame, block. simpl.
  fold newSocket. unfold setSocket. simpl.
  assert (Hnew : forall l : list Socket, forall x, (l ++ [x]) !! length l = Some x).
  { intros l x. rewrite lookup_app_r by lia. by rewrite Nat.sub_diag. }
  destruct (socket w) as [old|]; simpl.
  - destruct (bool_decide (Some newSocket = Some old)) eqn:Hd; simpl.
    + rewrite length_app. simpl. repeat split; [lia|apply Hnew].
    + apply bool_decide_eq_false in Hd.
      rewrite length_alter, length_app. simpl.
      repeat split; [lia|].
      rewrite list_lookup_alter_ne by congruence. apply Hnew.
  - rewrite length_app. simpl. repeat split; [lia|apply Hnew].
Qed.

(** ** Further properties: what each listener leaves alone *)

Lemma lookup_alter_proj {B} (proj : Socket -> B) (f : Socket -> Socket)
      (i j : nat) (l : list Socket) :
  (forall s, proj (f s) = proj s) ->
  proj <$> alter f i l !! j = proj <$> l !! j.
Proof.
  intros Hf. destruct (decide (i = j)) as [->|Hne].
  - rewrite list_lookup_alter_eq. destruct (l !! j); simpl; by rewrite ?Hf.
  - by rewrite list_lookup_alter_ne.
Qed.

Lemma setSocket_null_outbox (w : world) (j : nat) :
  outbox <$> sockets (setSocket None w) !! j = outbox <$> sockets w !! j.
Proof.
  unfold setSocket. destruct (socket w) as [old|]; [|done].
  rewrite bool_decide_false by done. simpl. by apply lookup_alter_proj.
Qed.

Ltac field_cases k Hk :=
  destruct k; try done; exfalso; apply Hk; apply list_elem_of_In; simpl; auto 20.

Lemma deliver_frame (h : nat) (ev : event) (w : world) (k : field) :
  k ∉ writes ev ->
  read (gameState (deliver h ev w)) k = read (gameState w) k.
Proof.
  intros Hk. unfold deliver.
  destruct (sockets w !! h) as [s|]; [|done].
  destruct (closed s); [done|].
  destruct ev; unfold listener.
  - simpl in *. field_cases k Hk.
  - destruct (GameState.playerId _); [|done]. by destruct (_ && _).
  - simpl in *. field_cases k Hk.
  - simpl in *. field_cases k Hk.
  - exfalso. apply Hk. apply list_elem_of_In. destruct k; simpl; auto 20.
  - simpl in *. field_cases k Hk.
  - unfold block. cbn [foldl].
    destruct (setSocket_null_state
                (disconnect (c_newSocket (listeners s))
                   (updateGameState
                      [GameState.JoinError (Some reason); GameState.HasJoined false] w)))
      as (-> & _).
    simpl in *. field_cases k Hk.
  - simpl in *. field_cases k Hk.
  - simpl in *. field_cases k Hk.
  - simpl in *. field_cases k Hk.
  - simpl in *. field_cases k Hk.
  - unfold setGameState. cbn [gameState]. rewrite onDrawingSubmitted_assign.
    simpl in *. field_cases k Hk.
  - unfold setGameState. cbn [gameState]. rewrite onDrawingUpdate_assign.
    simpl in *. field_cases k Hk.
Qed.

(** X4.  A listener assigns only the keys listed for its event in
    [writes]: every other field of [gameState] is the same after the event
    as before.  In particular no event but [kicked] changes [playerId],
    [nickname] or [hasSubmittedDrawing]. *)
Theorem listener_writes_only_its_fields
    (h : nat) (ev : event) (w : world) (k : field) :
  k ∉ writes ev ->
  read (gameState (deliver h ev w)) k = read (gameState w) k.
Proof. apply deliver_frame. Qed.

Lemma listener_writes_only_its_fields_witness :
  (FPlayerId ∉ writes (joinRejected "Lobby full"))
  /\ read (gameState (deliver 0 (joinRejected "Lobby full") connectedWorld)) FPlayerId
     = GameState.PlayerId (Some "k3x9q").
Proof.
  assert (H : FPlayerId ∉ writes (joinRejected "Lobby full")).
  { simpl. rewrite !not_elem_of_cons. repeat split; try discriminate.
    apply not_elem_of_nil. }
  split; [exact H|].
  apply (listener_writes_only_its_fields 0 (joinRejected "Lobby full") connectedWorld
           FPlayerId H).
Defined.

Lemma deliver_keeps_sockets_open (h : nat) (ev : event) (w : world) :
  disconnects ev = false ->
  (forall j, closed <$> sockets (deliver h ev w) !! j = closed <$> sockets w !! j)
  /\ length (sockets (deliver h ev w)) = length (sockets w)
  /\ socket (deliver h ev w) = socket w
  /\ route (deliver h ev w) = route w.
Proof.
  intros Hev. unfold deliver.
  destruct (sockets w !! h) as [s|]; [|done].
  destruct (closed s); [done|].
  destruct ev; try discriminate; simpl; try done.
  - destruct (GameState.playerId _); [|done].
    destruct (_ && _); [|done]. simpl.
    rewrite length_alter. repeat split. intros j. by apply lookup_alter_proj.
  - unfold block. simpl. rewrite length_alter.
    repeat split. intros j. by apply lookup_alter_proj.
Qed.

(** X5.  Only the [kicked] and [joinRejected] listeners close a socket or
    change the [socket] state, and only [kicked] navigates: after any other
    event every socket is as open or closed as before, [socket] is the
    same, no socket object was added and the router was not called. *)
Theorem only_kicked_and_joinRejected_close
    (h : nat) (ev : event) (w : world) :
  disconnects ev = false ->
  (forall j, closed <$> sockets (deliver h ev w) !! j = closed <$> sockets w !! j)
  /\ length (sockets (deliver h ev w)) = length (sockets w)
  /\ socket (deliver h ev w) = socket w
  /\ route (deliver h ev w) = route w.
Proof. apply deliver_keeps_sockets_open. Qed.

Lemma only_kicked_and_joinRejected_close_witness :
  disconnects connect_error = false
  /\ closed <$> sockets (deliver 0 connect_error connectedWorld) !! 0 = Some false
  /\ socket (deliver 0 connect_error connectedWorld) = Some 0
  /\ route (deliver 0 connect_error connectedWorld) = [].
Proof.
  split; [reflexivity|].
  destruct (only_kicked_and_joinRejected_close 0 connect_error connectedWorld eq_refl)
    as (Hc & _ & Hs & Hr).
  split; [apply (Hc 0)|]. split; [exact Hs|exact Hr].
Defined.

Lemma deliver_keeps_outbox (h : nat) (ev : event) (w : world) (j : nat) :
  emits ev = false ->
  outbox <$> sockets (deliver h ev w) !! j = outbox <$> sockets w !! j.
Proof.
  intros Hev. unfold deliver.
  destruct (sockets w !! h) as [s|]; [|done].
  destruct (closed s); [done|].
  destruct ev; try discriminate; simpl; try done.
  - unfold block. simpl. rewrite setSocket_null_outbox. simpl.
    by apply lookup_alter_proj.
  - unfold block. simpl. rewrite setSocket_null_outbox. simpl.
    by apply lookup_alter_proj.
Qed.

(** X6.  Only the [connect] and [reconnect] listeners send anything: after
    any other event the messages sent on every socket are the same. *)
Theorem only_connect_and_reconnect_emit
    (h : nat) (ev : event) (w : world) (j : nat) :
  emits ev = false ->
  outbox <$> sockets (deliver h ev w) !! j = outbox <$> sockets w !! j.
Proof. apply deliver_keeps_outbox. Qed.

Lemma only_connect_and_reconnect_emit_witness :
  emits kicked = false
  /\ outbox <$> sockets (deliver 0 kicked connectedWorld) !! 0
     = Some [joinLobby "k3x9q" "Ava"].
Proof.
  split; [reflexivity|].
  apply (only_connect_and_reconnect_emit 0 kicked connectedWorld 0 eq_refl).
Defined.

(** ** Further properties: sockets over a whole session *)

Lemma replicate_snoc {A} (n : nat) (x : A) :
  replicate n x ++ [x] = replicate (S n) x.
Proof. induction n as [|n IH]; simpl; [done|]. by rewrite IH. Qed.

Lemma connects_accumulate (cl : closure) (evs : list event) (w : world) (n : nat) :
  sockets w !! c_newSocket cl =
    Some (mkSocket cl false (replicate n (joinLobby (c_playerId cl) (c_nickname cl)))) ->
  forallb (fun ev => negb (disconnects ev) && negb (is_reconnect ev)) evs = true ->
  sockets (deliver_all (c_newSocket cl) evs w) !! c_newSocket cl =
    Some (mkSocket cl false
            (replicate (n + length (filter (fun ev => is_connect ev = true) evs))
               (joinLobby (c_playerId cl) (c_nickname cl)))).
Proof.
  revert w n. induction evs as [|ev evs IH]; intros w n Hs Hevs.
  - simpl. by rewrite Nat.add_0_r.
  - simpl in Hevs. apply andb_prop in Hevs as [Hev Hevs].
    apply andb_prop in Hev as [Hd Hr].
    unfold deliver_all. simpl. fold (deliver_all (c_newSocket cl) evs).
    destruct (is_connect ev) eqn:Hc.
    + destruct ev; try discriminate.
      rewrite filter_cons_True by done. simpl length.
      replace (n + S (length (filter (fun ev => is_connect ev = true) evs)))
        with (S n + length (filter (fun ev => is_connect ev = true) evs)) by lia.
      apply IH; [|done].
      rewrite (deliver_open _ _ connect w Hs eq_refl). simpl.
      rewrite list_lookup_alter_eq, Hs. simpl. by rewrite replicate_snoc.
    + rewrite filter_cons_False by (by rewrite Hc).
      apply IH; [|done].
      rewrite (deliver_open _ _ ev w Hs eq_refl).
      destruct ev; try discriminate; exact Hs.
Qed.

(** X8.  As long as a socket is neither kicked nor rejected, and leaving
    the [reconnect] listener aside, everything it sends is a [joinLobby]
    carrying the identifier and nickname of the [joinGame] call that
    created it, one for every [connect] the transport reports, whatever
    other events arrive in between. *)
Theorem connect_always_sends_the_generated_identity
    (playerId nickname : string) (w : world) (evs : list event) :
  forallb (fun ev => negb (disconnects ev) && negb (is_reconnect ev)) evs = true ->
  outbox <$>
    sockets (deliver_all (length (sockets w)) evs (joinGame playerId nickname w))
      !! length (sockets w)
  = Some (replicate (length (filter (fun ev => is_connect ev = true) evs))
            (joinLobby playerId nickname)).
Proof.
  intros Hevs.
  pose proof (joinGame_opens_fresh_socket_aux playerId nickname w) as Hnew.
  pose proof (connects_accumulate
                (mkClosure (gameState w) playerId nickname (length (sockets w)))
                evs (joinGame playerId nickname w) 0 Hnew Hevs) as H.
  simpl in H. by rewrite H.
Qed.

Lemma connect_always_sends_the_generated_identity_witness :
  outbox <$>
    sockets (deliver_all 0 [connect; lobbyUpdate [ava]; connect_error; connect; adminJoined]
               (joinGame "k3x9q" "Ava" initialWorld)) !! 0
  = Some [joinLobby "k3x9q" "Ava"; joinLobby "k3x9q" "Ava"].
Proof.
  apply (connect_always_sends_the_generated_identity "k3x9q" "Ava" initialWorld
           [connect; lobbyUpdate [ava]; connect_error; connect; adminJoined]).
  reflexivity.
Defined.

Lemma deliver_all_keeps_identity (h : nat) (evs : list event) (w : world) :
  forallb (fun ev => negb (disconnects ev) && negb (is_reconnect ev)) evs = true ->
  GameState.playerId (gameState (deliver_all h evs w)) = GameState.playerId (gameState w)
  /\ GameState.nickname (gameState (deliver_all h evs w)) = GameState.nickname (gameState w).
Proof.
  revert w. induction evs as [|ev evs IH]; intros w Hevs; [done|].
  simpl in Hevs. apply andb_prop in Hevs as [Hev Hevs].
  apply andb_prop in Hev as [Hd _].
  destruct (IH (deliver h ev w) Hevs) as [Hp Hn].
  unfold deliver_all in *. simpl. rewrite Hp, Hn.
  assert (Hid : FPlayerId ∉ writes ev).
  { intros Hin. apply list_elem_of_In in Hin.
    destruct ev; try discriminate; simpl in Hin; intuition discriminate. }
  assert (Hnick : FNickname ∉ writes ev).
  { intros Hin. apply list_elem_of_In in Hin.
    destruct ev; try discriminate; simpl in Hin; intuition discriminate. }
  pose proof (deliver_frame h ev w FPlayerId Hid) as H1.
  pose proof (deliver_frame h ev w FNickname Hnick) as H2.
  simpl in H1, H2. split; congruence.
Qed.

(** C2.  The transport reports a successful reconnection to the socket as
    another [connect].  After [joinGame] the first [connect] sends
    [joinLobby] with the generated identifier and the nickname; whatever
    the socket handles next (short of being kicked or rejected), the
    [connect] of a reconnection sends one more [joinLobby] with exactly
    the same identifier and nickname, every message sent in between
    carries them too, and the [playerId] and [nickname] of the state are
    still the ones [joinGame] stored: no new identifier is generated. *)
Theorem reconnection_resends_the_same_identity
    (playerId nickname : string) (w : world) (evs : list event) :
  forallb (fun ev => negb (disconnects ev) && negb (is_reconnect ev)) evs = true ->
  let h := length (sockets w) in
  let joined := deliver h connect (joinGame playerId nickname w) in
  let before := deliver_all h evs joined in
  let reconnected := deliver h connect before in
  outbox <$> sockets joined !! h = Some [joinLobby playerId nickname]
  /\ (exists sent,
        outbox <$> sockets before !! h = Some (joinLobby playerId nickname :: sent)
        /\ Forall (fun m => m = joinLobby playerId nickname) sent
        /\ outbox <$> sockets reconnected !! h
           = Some (joinLobby playerId nickname :: sent ++ [joinLobby playerId nickname]))
  /\ GameState.playerId (gameState (joinGame playerId nickname w)) = Some playerId
  /\ GameState.playerId (gameState reconnected) = Some playerId
  /\ GameState.nickname (gameState reconnected) = nickname.
Proof.
  intros Hevs h joined before reconnected.
  set (cl := mkClosure (gameState w) playerId nickname h).
  set (m := joinLobby playerId nickname).
  pose proof (joinGame_opens_fresh_socket_aux playerId nickname w) as Hnew.
  fold h cl in Hnew.
  assert (Hjoined : sockets joined !! h = Some (mkSocket cl false (replicate 1 m))).
  { apply (connects_accumulate cl [connect] (joinGame playerId nickname w) 0 Hnew eq_refl). }
  set (k := length (filter (fun ev => is_connect ev = true) evs)).
  assert (Hbefore : sockets before !! h = Some (mkSocket cl false (replicate (1 + k) m))).
  { apply (connects_accumulate cl evs joined 1 Hjoined Hevs). }
  assert (Hre : sockets reconnected !! h
                = Some (mkSocket cl false (replicate (1 + k + 1) m))).
  { apply (connects_accumulate cl [connect] before (1 + k) Hbefore eq_refl). }
  assert (Hstate : GameState.playerId (gameState (joinGame playerId nickname w))
                   = Some playerId
                   /\ GameState.nickname (gameState (joinGame playerId nickname w))
                      = nickname).
  { by rewrite joinGame_gameState. }
  split; [by rewrite Hjoined|]. split; [|split; [apply Hstate|]].
  - exists (replicate k m). split; [by rewrite Hbefore|]. split.
    + by apply Forall_replicate.
    + rewrite Hre. simpl. do 2 f_equal.
      replace (k + 1) with (S k) by lia. by rewrite replicate_snoc.
  - assert (Hall : forallb (fun ev => negb (disconnects ev) && negb (is_reconnect ev))
                     (connect :: evs ++ [connect]) = true).
    { simpl. rewrite forallb_app, Hevs. reflexivity. }
    destruct (deliver_all_keeps_identity h (connect :: evs ++ [connect])
                (joinGame playerId nickname w) Hall) as [Hp Hn].
    assert (Heq : deliver_all h (connect :: evs ++ [connect])
                    (joinGame playerId nickname w) = reconnected).
    { unfold deliver_all. simpl. by rewrite foldl_snoc. }
    rewrite Heq in Hp, Hn. destruct Hstate as [Hp0 Hn0]. split; congruence.
Qed.

Lemma reconnection_resends_the_same_identity_witness :
  outbox <$> sockets (deliver 0 connect (joinGame "k3x9q" "Ava" initialWorld)) !! 0
  = Some [joinLobby "k3x9q" "Ava"]
  /\ outbox <$>
       sockets (deliver 0 connect
                  (deliver_all 0 [lobbyUpdate [ava]; connect_error; drawingUpdate drawingA]
                     (deliver 0 connect (joinGame "k3x9q" "Ava" initialWorld)))) !! 0
     = Some [joinLobby "k3x9q" "Ava"; joinLobby "k3x9q" "Ava"]
  /\ GameState.playerId
       (gameState
          (deliver 0 connect
             (deliver_all 0 [lobbyUpdate [ava]; connect_error; drawingUpdate drawingA]
                (deliver 0 connect (joinGame "k3x9q" "Ava" initialWorld)))))
     = Some "k3x9q".
Proof.
  destruct (reconnection_resends_the_same_identity "k3x9q" "Ava" initialWorld
              [lobbyUpdate [ava]; connect_error; drawingUpdate drawingA] eq_refl)
    as (Hfirst & _ & _ & Hid & _).
  split; [exact Hfirst|]. split; [reflexivity|exact Hid].
Defined.

(** ** Further properties: flags over a whole session *)

Lemma deliver_keeps_isAdmin (h : nat) (ev : event) (w : world) :
  is_kicked ev = false ->
  GameState.isAdmin (gameState w) = true ->
  GameState.isAdmin (gameState (deliver h ev w)) = true.
Proof.
  intros Hev Hadmin.
  destruct (decide (FIsAdmin ∈ writes ev)) as [Hin|Hout].
  - unfold deliver. destruct (sockets w !! h) as [s|]; [|done].
    destruct (closed s); [done|].
    destruct ev; try discriminate; try done;
      apply list_elem_of_In in Hin; simpl in Hin; intuition discriminate.
  - pose proof (deliver_frame h ev w FIsAdmin Hout) as H.
    simpl in H. congruence.
Qed.

(** X9.  Once [isAdmin] is true it stays true through every sequence of
    events that has no [kicked] in it: [adminJoined] is the only listener
    that assigns it, and it assigns [true]. *)
Theorem isAdmin_is_permanent_until_kicked (h : nat) (evs : list event) (w : world) :
  forallb (fun ev => negb (is_kicked ev)) evs = true ->
  GameState.isAdmin (gameState w) = true ->
  GameState.isAdmin (gameState (deliver_all h evs w)) = true.
Proof.
  revert w. induction evs as [|ev evs IH]; intros w Hevs Hadmin; [done|].
  simpl in Hevs. apply andb_prop in Hevs as [Hev Hevs].
  apply (IH (deliver h ev w)); [done|].
  apply deliver_keeps_isAdmin; [|done]. by destruct (is_kicked ev).
Qed.

Lemma isAdmin_is_permanent_until_kicked_witness :
  GameState.isAdmin (gameState (deliver 0 adminJoined connectedWorld)) = true
  /\ GameState.isAdmin
       (gameState
          (deliver_all 0
             [lobbyUpdate []; connect_error; connect; error "x"; joinRejected "Lobby full"]
             (deliver 0 adminJoined connectedWorld)))
     = true.
Proof.
  split; [reflexivity|].
  apply (isAdmin_is_permanent_until_kicked 0
           [lobbyUpdate []; connect_error; connect; error "x"; joinRejected "Lobby full"]
           (deliver 0 adminJoined connectedWorld)); reflexivity.
Defined.

(** X10.  [joinError] is never set back to [null]: once it holds a
    message, it holds one after every later join and event (a later
    successful [connect] leaves the old message in place, and [kicked]
    replaces it). *)
Theorem joinError_is_never_cleared (acts : list action) (w : world) :
  is_Some (GameState.joinError (gameState w)) ->
  is_Some (GameState.joinError (gameState (run acts w))).
Proof.
  unfold run. revert w. induction acts as [|a acts IH]; intros w Hsome; [done|].
  simpl. apply IH. destruct a as [playerId nickname|h ev]; simpl.
  { by rewrite joinGame_gameState. }
  destruct (decide (FJoinError ∈ writes ev)) as [Hin|Hout].
  - unfold deliver. destruct (sockets w !! h) as [s|]; [|done].
    destruct (closed s); [done|].
    destruct ev; try done;
      try (apply list_elem_of_In in Hin; simpl in Hin; intuition discriminate).
    all: unfold listener, block; cbn [foldl];
      match goal with
      | |- context [setSocket None ?x] =>
          destruct (setSocket_null_state x) as (Hg & _)
      end;
      simpl; rewrite ?Hg; simpl; done.
  - pose proof (deliver_frame h ev w FJoinError Hout) as H.
    simpl in H. injection H as ->. done.
Qed.

Lemma joinError_is_never_cleared_witness :
  is_Some (GameState.joinError (gameState (deliver 0 connect_error joinedWorld)))
  /\ GameState.joinError
       (gameState (run [Transport 0 connect] (deliver 0 connect_error joinedWorld)))
     = Some "Failed to connect to server. Retrying..."
  /\ GameState.hasJoined
       (gameState (run [Transport 0 connect] (deliver 0 connect_error joinedWorld)))
     = true
  /\ is_Some
       (GameState.joinError
          (gameState (run [Transport 0 connect] (deliver 0 connect_error joinedWorld)))).
Proof.
  assert (H : is_Some (GameState.joinError
                         (gameState (deliver 0 connect_error joinedWorld)))).
  { eexists. reflexivity. }
  split; [exact H|]. split; [reflexivity|]. split; [reflexivity|].
  exact (joinError_is_never_cleared [Transport 0 connect]
           (deliver 0 connect_error joinedWorld) H).
Defined.

(** ** Further properties: the gallery over a whole session *)

Lemma deliver_drawings_cases (h : nat) (ev : event) (w : world) :
  is_kicked ev = false ->
  GameState.drawings (gameState (deliver h ev w)) = GameState.drawings (gameState w)
  \/ (exists drawing, ev = drawingSubmitted drawing
        /\ GameState.drawings (gameState (deliver h ev w))
           = GameState.drawings (onDrawingSubmitted drawing (gameState w)))
  \/ (exists drawing, ev = drawingUpdate drawing
        /\ GameState.drawings (gameState (deliver h ev w))
           = GameState.drawings (onDrawingUpdate drawing (gameState w))).
Proof.
  intros Hev.
  destruct (decide (FDrawings ∈ writes ev)) as [Hin|Hout].
  - unfold deliver. destruct (sockets w !! h) as [s|]; [|by left].
    destruct (closed s); [by left|].
    destruct ev; try discriminate;
      try (apply list_elem_of_In in Hin; simpl in Hin; intuition discriminate).
    + right. left. eauto.
    + right. right. eauto.
  - left. pose proof (deliver_frame h ev w FDrawings Hout) as H.
    simpl in H. congruence.
Qed.

Lemma upsert_ids_prefix (l : list Drawing.t) (new : Drawing.t)
      (found : option (nat * Drawing.t)) :
  (forall i r, found = Some (i, r) ->
               l !! i = Some r /\ Drawing.playerId new = Drawing.playerId r) ->
  (Drawing.playerId <$> l) `prefix_of`
  (Drawing.playerId <$> match found with
                        | Some (i, _) => <[i := new]> l
                        | None => l ++ [new]
                        end).
Proof.
  intros Hfound. destruct found as [[i r]|].
  - destruct (Hfound i r eq_refl) as [Hi Hid].
    rewrite list_fmap_insert, list_insert_id; [done|].
    rewrite list_lookup_fmap, Hi. simpl. congruence.
  - rewrite fmap_app. by apply prefix_app_r.
Qed.

Lemma deliver_ids_prefix (h : nat) (ev : event) (w : world) :
  is_kicked ev = false ->
  (Drawing.playerId <$> GameState.drawings (gameState w)) `prefix_of`
  (Drawing.playerId <$> GameState.drawings (gameState (deliver h ev w))).
Proof.
  intros Hev.
  destruct (deliver_drawings_cases h ev w Hev)
    as [-> | [(drawing & _ & ->) | (drawing & _ & ->)]]; [done| |].
  - rewrite onDrawingSubmitted_assign, drawings_assign.
    destruct (list_find _ _) as [[i r]|] eqn:Hfind.
    + apply list_find_Some in Hfind as (Hi & Hp & _). apply same_player_eq in Hp.
      apply (upsert_ids_prefix _ _ (Some (i, r))).
      intros ? ? [= <- <-]. split; [done|]. simpl. congruence.
    + by apply (upsert_ids_prefix _ _ None).
  - rewrite onDrawingUpdate_assign, drawings_assign.
    destruct (list_find _ _) as [[i r]|] eqn:Hfind.
    + apply list_find_Some in Hfind as (Hi & Hp & _). apply same_player_eq in Hp.
      apply (upsert_ids_prefix _ _ (Some (i, r))).
      intros ? ? [= <- <-]. split; [done|]. simpl. congruence.
    + by apply (upsert_ids_prefix _ _ None).
Qed.

(** X11.  Within a session (no [kicked]) the gallery only grows at its
    end: after any sequence of events, the players of the records present
    before are still there, at the same positions and in the same order.
    No record is ever deleted, moved or handed to another player. *)
Theorem gallery_players_are_never_removed_or_reordered
    (h : nat) (evs : list event) (w : world) :
  forallb (fun ev => negb (is_kicked ev)) evs = true ->
  (Drawing.playerId <$> GameState.drawings (gameState w)) `prefix_of`
  (Drawing.playerId <$> GameState.drawings (gameState (deliver_all h evs w))).
Proof.
  revert w. induction evs as [|ev evs IH]; intros w Hevs; [done|].
  simpl in Hevs. apply andb_prop in Hevs as [Hev Hevs].
  etrans; [|apply (IH (deliver h ev w) Hevs)].
  apply deliver_ids_prefix. by destruct (is_kicked ev).
Qed.

Lemma gallery_players_are_never_removed_or_reordered_witness :
  Drawing.playerId <$> GameState.drawings (gameState galleryWorld) = ["p1"; "p2"]
  /\ (Drawing.playerId <$> GameState.drawings (gameState galleryWorld)) `prefix_of`
     (Drawing.playerId <$>
        GameState.drawings
          (gameState
             (deliver_all 0
                [drawingUpdate drawingB; lobbyUpdate [];
                 drawingSubmitted (Drawing.mkPayload "p3" "Cy" "D"); connect_error]
                galleryWorld))).
Proof.
  split; [reflexivity|].
  apply (gallery_players_are_never_removed_or_reordered 0
           [drawingUpdate drawingB; lobbyUpdate [];
            drawingSubmitted (Drawing.mkPayload "p3" "Cy" "D"); connect_error]
           galleryWorld).
  reflexivity.
Defined.

Lemma deliver_keeps_submitted (h : nat) (ev : event) (w : world)
      (i : nat) (r : Drawing.t) :
  is_kicked ev = false ->
  GameState.drawings (gameState w) !! i = Some r ->
  Drawing.submitted r = true ->
  exists r',
    GameState.drawings (gameState (deliver h ev w)) !! i = Some r'
    /\ Drawing.playerId r' = Drawing.playerId r
    /\ Drawing.submitted r' = true.
Proof.
  intros Hev Hi Hsub.
  destruct (deliver_drawings_cases h ev w Hev)
    as [-> | [(drawing & _ & ->) | (drawing & _ & ->)]]; [eauto| |].
  - rewrite onDrawingSubmitted_assign, drawings_assign.
    destruct (list_find _ _) as [[k r0]|] eqn:Hfind.
    + apply list_find_Some in Hfind as (Hk & Hp & _). apply same_player_eq in Hp.
      destruct (decide (k = i)) as [->|Hne].
      * exists (Drawing.spread drawing true).
        rewrite list_lookup_insert_eq by (by eapply lookup_lt_Some).
        repeat split. simpl. congruence.
      * exists r. by rewrite list_lookup_insert_ne.
    + exists r. rewrite lookup_app_l by (by eapply lookup_lt_Some). done.
  - rewrite onDrawingUpdate_assign, drawings_assign.
    destruct (list_find _ _) as [[k r0]|] eqn:Hfind.
    + apply list_find_Some in Hfind as (Hk & Hp & _). apply same_player_eq in Hp.
      destruct (decide (k = i)) as [->|Hne].
      * exists (Drawing.spread drawing (Drawing.submitted r0)).
        rewrite list_lookup_insert_eq by (by eapply lookup_lt_Some).
        assert (r0 = r) as -> by congruence.
        repeat split; [|done]. simpl. congruence.
      * exists r. by rewrite list_lookup_insert_ne.
    + exists r. rewrite lookup_app_l by (by eapply lookup_lt_Some). done.
Qed.

(** X12.  A submitted record stays submitted, for the same player and at
    the same position, through every sequence of events of any kind that
    has no [kicked] in it. *)
Theorem submitted_is_permanent_until_kicked
    (h : nat) (evs : list event) (w : world) (i : nat) (r : Drawing.t) :
  forallb (fun ev => negb (is_kicked ev)) evs = true ->
  GameState.drawings (gameState w) !! i = Some r ->
  Drawing.submitted r = true ->
  exists r',
    GameState.drawings (gameState (deliver_all h evs w)) !! i = Some r'
    /\ Drawing.playerId r' = Drawing.playerId r
    /\ Drawing.submitted r' = true.
Proof.
  revert w r. induction evs as [|ev evs IH]; intros w r Hevs Hi Hsub; [eauto|].
  simpl in Hevs. apply andb_prop in Hevs as [Hev Hevs].
  destruct (deliver_keeps_submitted h ev w i r) as (r1 & Hi1 & Hid1 & Hsub1);
    [by destruct (is_kicked ev)|done|done|].
  destruct (IH (deliver h ev w) r1 Hevs Hi1 Hsub1) as (r' & Hi' & Hid' & Hsub').
  exists r'. split; [exact Hi'|]. split; [congruence|done].
Qed.

Lemma submitted_is_permanent_until_kicked_witness :
  GameState.drawings (gameState galleryWorld) !! 1 = Some (Drawing.mk "p2" "Bo" "A" true)
  /\ exists r',
       GameState.drawings
         (gameState
            (deliver_all 0
               [drawingUpdate drawingB; drawingUpdate drawingC; allDrawingsSubmitted;
                drawingSubmitted drawingA; joinRejected "Lobby full"]
               galleryWorld)) !! 1 = Some r'
       /\ Drawing.playerId r' = "p2"
       /\ Drawing.submitted r' = true.
Proof.
  split; [reflexivity|].
  apply (submitted_is_permanent_until_kicked 0
           [drawingUpdate drawingB; drawingUpdate drawingC; allDrawingsSubmitted;
            drawingSubmitted drawingA; joinRejected "Lobby full"]
           galleryWorld 1 (Drawing.mk "p2" "Bo" "A" true)); reflexivity.
Defined.

(** ** Further properties: last writer wins *)

Lemma onDrawingSubmitted_upsert (drawing : Drawing.payload) (prev : GameState.t) :
  GameState.drawings (onDrawingSubmitted drawing prev) =
  upsert drawing (fun _ => Drawing.spread drawing true) (Drawing.spread drawing true)
    (GameState.drawings prev).
Proof.
  rewrite onDrawingSubmitted_assign, drawings_assign. unfold upsert.
  by destruct (list_find _ _) as [[i r]|].
Qed.

Lemma onDrawingUpdate_upsert (drawing : Drawing.payload) (prev : GameState.t) :
  GameState.drawings (onDrawingUpdate drawing prev) =
  upsert drawing (fun r => Drawing.spread drawing (Drawing.submitted r))
    (Drawing.spread drawing false) (GameState.drawings prev).
Proof.
  rewrite onDrawingUpdate_assign, drawings_assign. unfold upsert.
  by destruct (list_find _ _) as [[i r]|].
Qed.

Lemma upsert_upsert (d1 d2 : Drawing.payload) (f1 f2 : Drawing.t -> Drawing.t)
      (x1 x2 : Drawing.t) (l : list Drawing.t) :
  Drawing.p_playerId d1 = Drawing.p_playerId d2 ->
  (forall r, same_player d1 (f1 r) = true) ->
  same_player d1 x1 = true ->
  upsert d2 f2 x2 (upsert d1 f1 x1 l) = upsert d1 (fun r => f2 (f1 r)) (f2 x1) l.
Proof.
  intros Hid Hf1 Hx1.
  assert (Hsame : upsert d2 f2 x2 = upsert d1 f2 x2).
  { destruct d1, d2. simpl in Hid. subst. reflexivity. }
  rewrite Hsame. clear Hsame. unfold upsert.
  destruct (list_find _ l) as [[k r]|] eqn:Hfind.
  - apply list_find_Some in Hfind as (Hk & _ & Hfirst).
    assert (Hfind' : list_find (fun d => same_player d1 d = true) (<[k := f1 r]> l)
                     = Some (k, f1 r)).
    { apply list_find_Some. split; [|split].
      - apply list_lookup_insert_eq. by eapply lookup_lt_Some.
      - apply Hf1.
      - intros j y Hj Hlt. rewrite list_lookup_insert_ne in Hj by lia. eauto. }
    rewrite Hfind'. apply list_insert_insert_eq.
  - apply list_find_None in Hfind. rewrite Forall_lookup in Hfind.
    assert (Hfind' : list_find (fun d => same_player d1 d = true) (l ++ [x1])
                     = Some (length l, x1)).
    { apply list_find_Some. split; [|split].
      - rewrite lookup_app_r by lia. by rewrite Nat.sub_diag.
      - exact Hx1.
      - intros j y Hj Hlt. rewrite lookup_app_l in Hj by lia. eauto. }
    rewrite Hfind'.
    rewrite insert_app_r_alt by lia. by rewrite Nat.sub_diag.
Qed.

(** X13.  For one player the last drawing event decides the record: a
    [drawingUpdate] or [drawingSubmitted] followed by another event for the
    same player leaves the gallery as the second event alone would, except
    that an update arriving after a submission keeps the record submitted,
    so it acts as a submission of the new image.  In particular
    [drawingUpdate] is idempotent. *)
Theorem last_drawing_event_wins
    (h : nat) (s : Socket) (w : world) (d1 d2 : Drawing.payload) :
  sockets w !! h = Some s ->
  closed s = false ->
  Drawing.p_playerId d1 = Drawing.p_playerId d2 ->
  let after evs := GameState.drawings (gameState (deliver_all h evs w)) in
  after [drawingUpdate d1; drawingUpdate d2] = after [drawingUpdate d2]
  /\ after [drawingSubmitted d1; drawingSubmitted d2] = after [drawingSubmitted d2]
  /\ after [drawingUpdate d1; drawingSubmitted d2] = after [drawingSubmitted d2]
  /\ after [drawingSubmitted d1; drawingUpdate d2] = after [drawingSubmitted d2].
Proof.
  intros Hs Hopen Hid after.
  assert (Hstep : forall ev w0, is_drawing_event ev = true -> sockets w0 = sockets w ->
            deliver h ev w0 = listener (listeners s) ev w0).
  { intros ev w0 _ Hw0. apply deliver_open; [by rewrite Hw0|done]. }
  assert (Hflip : upsert d2 = upsert d1).
  { destruct d1, d2. simpl in Hid. subst. reflexivity. }
  unfold after, deliver_all. simpl.
  rewrite !(Hstep _ w) by done. simpl.
  rewrite !Hstep by done. simpl.
  repeat (rewrite onDrawingUpdate_upsert || rewrite onDrawingSubmitted_upsert).
  rewrite !upsert_upsert by (try done; intros; apply same_player_spread).
  rewrite !Hflip.
  repeat split; unfold upsert; by destruct (list_find _ _) as [[k r]|].
Qed.

Lemma last_drawing_event_wins_witness :
  sockets galleryWorld !! 0 = Some firstSocket
  /\ closed firstSocket = false
  /\ GameState.drawings
       (gameState (deliver_all 0 [drawingSubmitted drawingA; drawingUpdate drawingB]
                     connectedWorld))
     = [Drawing.mk "p2" "Bo" "B" true]
  /\ GameState.drawings
       (gameState (deliver_all 0 [drawingUpdate drawingA; drawingUpdate drawingB]
                     galleryWorld))
     = GameState.drawings (gameState (deliver_all 0 [drawingUpdate drawingB] galleryWorld)).
Proof.
  split; [reflexivity|]. split; [reflexivity|]. split; [reflexivity|].
  apply (last_drawing_event_wins 0 firstSocket galleryWorld drawingA drawingB);
    reflexivity.
Defined.

(** ** Further properties: the whiteboard *)

Section StrokeProperties.

Context {num : Type} (minus : num -> num -> num).
Context (clearRect : Whiteboard.Canvas (num := num) ->
                     list (Whiteboard.Point (num := num) * Whiteboard.Point (num := num))).

Lemma handle_mirrors (g : gesture) (b : Whiteboard.board (num := num)) :
  is_Some (Whiteboard.socket b) ->
  is_Some (Whiteboard.socket (handle minus b g))
  /\ exists segments,
       drawn (handle minus b g) = drawn b ++ segments
       /\ Whiteboard.transmitted (handle minus b g)
          = Whiteboard.transmitted b ++ (as_message <$> segments).
Proof.
  intros [sk Hsk].
  assert (Hnil : forall b' : Whiteboard.board (num := num),
             Whiteboard.canvasRef b' = Whiteboard.canvasRef b ->
             Whiteboard.socket b' = Whiteboard.socket b ->
             is_Some (Whiteboard.socket b')
             /\ exists segments,
                  drawn b' = drawn b ++ segments
                  /\ Whiteboard.transmitted b'
                     = Whiteboard.transmitted b ++ (as_message <$> segments)).
  { intros b' Hc Hs. split; [rewrite Hs, Hsk; eauto|].
    exists []. unfold drawn, Whiteboard.transmitted. rewrite Hc, Hs, !app_nil_r. done. }
  destruct g as [e|e|]; cbn [handle].
  - unfold Whiteboard.startDrawing.
    destruct (Whiteboard.getCoordinates minus e b); by apply Hnil.
  - unfold Whiteboard.draw.
    destruct (Whiteboard.isDrawing b); [|by apply Hnil].
    destruct (Whiteboard.lastPoint b) as [anchor|]; [|by apply Hnil].
    destruct (Whiteboard.getCoordinates minus e b) as [point|]; [|by apply Hnil].
    unfold Whiteboard.getContext.
    destruct (Whiteboard.canvasRef b) as [canvas|] eqn:Hc; [|by apply Hnil].
    destruct (Whiteboard.context2d canvas); [|by apply Hnil].
    unfold Whiteboard.emit. simpl. rewrite Hsk. simpl.
    split; [eauto|]. exists [(anchor, point)].
    unfold drawn, Whiteboard.transmitted. simpl. by rewrite Hc, Hsk.
  - by apply Hnil.
Qed.

(** X15.  With a socket in place, whatever the user does with the pointer
    (mouse or touch, in any order), the segments added to the local canvas
    are exactly the segments sent, in the same order: nothing is drawn
    locally without being sent, and nothing is sent without being drawn. *)
Theorem local_strokes_are_exactly_what_is_sent (gestures : list gesture) (b : Whiteboard.board (num := num)) :
  is_Some (Whiteboard.socket b) ->
  exists segments,
    drawn (foldl (handle minus) b gestures) = drawn b ++ segments
    /\ Whiteboard.transmitted (foldl (handle minus) b gestures)
       = Whiteboard.transmitted b ++ (as_message <$> segments).
Proof.
  revert b. induction gestures as [|g gestures IH]; intros b Hsk.
  - exists []. by rewrite !app_nil_r.
  - simpl. destruct (handle_mirrors g b Hsk) as (Hsk1 & segs1 & Hd1 & Ht1).
    destruct (IH _ Hsk1) as (segs & Hd & Ht).
    exists (segs1 ++ segs). rewrite Hd, Ht, Hd1, Ht1, fmap_app, !app_assoc. done.
Qed.


(** X17.  A segment received from a peer is stroked at the coordinates
    given when the canvas has its context, and is never sent back; it
    does not disturb a local stroke in progress (the anchor stays). *)
Theorem remote_segment_is_drawn_not_echoed (start end_ : Whiteboard.Point (num := num)) (b : Whiteboard.board (num := num)) :
  let b' := Whiteboard.onDraw start end_ b in
  Whiteboard.socket b' = Whiteboard.socket b
  /\ Whiteboard.isDrawing b' = Whiteboard.isDrawing b
  /\ Whiteboard.lastPoint b' = Whiteboard.lastPoint b
  /\ Whiteboard.console b' = Whiteboard.console b
  /\ match Whiteboard.getContext b with
     | Some canvas =>
         Whiteboard.canvasRef b' =
           Some (Whiteboard.mkCanvas (Whiteboard.rect canvas) (Whiteboard.context2d canvas)
                   (Whiteboard.strokes canvas ++ [(start, end_)]))
         /\ drawn b' = drawn b ++ [(start, end_)]
     | None => b' = b
     end.
Proof.
  intros b'. subst b'. unfold Whiteboard.onDraw, Whiteboard.getContext, drawn.
  destruct (Whiteboard.canvasRef b) as [canvas|] eqn:Hc; [|done].
  destruct (Whiteboard.context2d canvas); [|done]. simpl. done.
Qed.

(** X18.  [clearCanvas] is local: it sends nothing and keeps the stroke
    state, and it changes nothing but the bitmap of a canvas that has its
    context (without one it does nothing).  Peers cannot tell that it
    happened: the next pointer move sends exactly what it would have sent
    without the clearing, and leaves the same anchor. *)
Theorem clearCanvas_is_local (e : Whiteboard.pointer) (b : Whiteboard.board (num := num)) :
  let b' := Whiteboard.clearCanvas clearRect b in
  Whiteboard.socket b' = Whiteboard.socket b
  /\ Whiteboard.transmitted b' = Whiteboard.transmitted b
  /\ Whiteboard.isDrawing b' = Whiteboard.isDrawing b
  /\ Whiteboard.lastPoint b' = Whiteboard.lastPoint b
  /\ Whiteboard.console b' = Whiteboard.console b
  /\ match Whiteboard.getContext b with
     | Some canvas =>
         Whiteboard.canvasRef b' =
           Some (Whiteboard.mkCanvas (Whiteboard.rect canvas)
                   (Whiteboard.context2d canvas) (clearRect canvas))
     | None => b' = b
     end
  /\ Whiteboard.transmitted (Whiteboard.draw minus e b')
     = Whiteboard.transmitted (Whiteboard.draw minus e b)
  /\ Whiteboard.lastPoint (Whiteboard.draw minus e b')
     = Whiteboard.lastPoint (Whiteboard.draw minus e b).
Proof.
  intros b'. subst b'.
  unfold Whiteboard.clearCanvas, Whiteboard.getContext.
  destruct (Whiteboard.canvasRef b) as [canvas|] eqn:Hc; [|done].
  destruct (Whiteboard.context2d canvas) eqn:Hctx;
    [|simpl; rewrite ?Hc, ?Hctx; done].
  simpl. rewrite ?Hctx. do 6 (split; [done|]).
  unfold Whiteboard.draw, Whiteboard.getContext, Whiteboard.getCoordinates,
    Whiteboard.emit, Whiteboard.transmitted.
  simpl. rewrite Hc, Hctx.
  destruct (Whiteboard.isDrawing b) eqn:Hd; [|done].
  destruct (Whiteboard.lastPoint b) as [anchor|] eqn:Ha; [|done].
  destruct e as [ox oy|cx cy|]; simpl; rewrite ?Hctx; [| |done];
    destruct (Whiteboard.socket b) as [sk|] eqn:Hsk; simpl; rewrite ?Hsk; done.
Qed.

(** X19.  Pressing the pointer never draws or sends.  It starts a stroke
    anchored at the event's point exactly when the event has coordinates:
    always for a mouse event, for a touch only while the canvas is
    mounted (the touch is then taken relative to the canvas); otherwise the
    board is unchanged.  Pressing again mid-stroke moves the anchor without
    a segment. *)
Theorem startDrawing_anchors_without_drawing (e : Whiteboard.pointer) (b : Whiteboard.board (num := num)) :
  let b' := Whiteboard.startDrawing minus e b in
  Whiteboard.canvasRef b' = Whiteboard.canvasRef b
  /\ Whiteboard.socket b' = Whiteboard.socket b
  /\ Whiteboard.console b' = Whiteboard.console b
  /\ match e, Whiteboard.canvasRef b with
     | Whiteboard.MouseEv offsetX offsetY, _ =>
         Whiteboard.isDrawing b' = true
         /\ Whiteboard.lastPoint b' = Some (Whiteboard.mkPoint offsetX offsetY)
     | Whiteboard.TouchEv clientX clientY, Some canvas =>
         Whiteboard.isDrawing b' = true
         /\ Whiteboard.lastPoint b' =
            Some (Whiteboard.mkPoint
                    (minus clientX (Whiteboard.left (Whiteboard.rect canvas)))
                    (minus clientY (Whiteboard.top (Whiteboard.rect canvas))))
     | _, _ => b' = b
     end.
Proof.
  intros b'. subst b'. unfold Whiteboard.startDrawing, Whiteboard.getCoordinates.
  destruct e as [ox oy|cx cy|]; [done| |done].
  destruct (Whiteboard.canvasRef b) eqn:Hc; simpl; by rewrite ?Hc.
Qed.

End StrokeProperties.

Lemma local_strokes_are_exactly_what_is_sent_witness :
  Whiteboard.socket idleBoard = Some (Whiteboard.mkSocket [])
  /\ exists segments,
       drawn (foldl (handle Z.sub) idleBoard
                [Move (Whiteboard.MouseEv 5%Z 5%Z); Down (Whiteboard.TouchEv 10%Z 10%Z);
                 Move (Whiteboard.TouchEv 20%Z 20%Z); Up;
                 Move (Whiteboard.MouseEv 30%Z 30%Z)])
       = drawn idleBoard ++ segments
       /\ Whiteboard.transmitted
            (foldl (handle Z.sub) idleBoard
               [Move (Whiteboard.MouseEv 5%Z 5%Z); Down (Whiteboard.TouchEv 10%Z 10%Z);
                Move (Whiteboard.TouchEv 20%Z 20%Z); Up;
                Move (Whiteboard.MouseEv 30%Z 30%Z)])
          = Whiteboard.transmitted idleBoard ++ (as_message <$> segments).
Proof.
  split; [reflexivity|].
  apply (local_strokes_are_exactly_what_is_sent Z.sub
           [Move (Whiteboard.MouseEv 5%Z 5%Z); Down (Whiteboard.TouchEv 10%Z 10%Z);
            Move (Whiteboard.TouchEv 20%Z 20%Z); Up;
            Move (Whiteboard.MouseEv 30%Z 30%Z)] idleBoard).
  eexists. reflexivity.
Defined.
